(** * Exposure time calculator for HAWK-I (src/etc.py)

    A shallow embedding of the [ETC] class and of the properties its
    specification states about it.

    Conventions of the embedding.
    - Python floats (numpy float64) are idealised as real numbers [R]:
      rounding, overflow, infinities and NaN are outside the model.  In
      particular [sqrt] of a negative number and a division by zero, which
      numpy answers with NaN, are only used in statements where the signal
      is non-negative and the noise is positive.
    - An astropy [Quantity] is a number together with a unit.  The number is
      kept in the base units (an integration time of one hour is 3600 s) and
      the unit is the vector of exponents of the base units, so that "the
      units are equivalent" is equality of the vectors.
    - Python's attribute lookup is modelled as it works: the instrument
      constants and the default observing conditions are attributes of the
      class object, shared by every instance; an assignment [self.x = v]
      writes the dictionary of the instance.
    - Methods are computations in a state-and-exception monad over the
      [World] (class object, instances, memo table, standard output).  A
      raised exception keeps the world as it was when it was raised.
    - A local name bound to the object of a class attribute is kept as a
      reference to it, so that an in-place operation on the name acts on
      the attribute.
    - [u.quantity_input] checks the argument it names and nothing else.
    - The photometric service [hmbp] is a parameter: a function of its
      arguments that returns a flux in ph / (s m2).
    - The [while] loop of [get_ndit] takes fuel, one unit per turn. *)

From Stdlib Require Import Reals Lra Lia ZArith List String Bool.
Import ListNotations.
Open Scope R_scope.

(** ** Units and quantities (the part of [astropy.units] the class uses) *)

Module Units.

(** Exponents of the base units ph, electron, pixel, s, m, arcsec. *)
Record Unit := mkUnit {
  e_ph : Z; e_electron : Z; e_pixel : Z; e_s : Z; e_m : Z; e_arcsec : Z }.

Definition dimensionless := mkUnit 0 0 0 0 0 0.
Definition ph       := mkUnit 1 0 0 0 0 0.
Definition electron := mkUnit 0 1 0 0 0 0.
Definition pixel    := mkUnit 0 0 1 0 0 0.
Definition s        := mkUnit 0 0 0 1 0 0.
Definition m        := mkUnit 0 0 0 0 1 0.
Definition arcsec   := mkUnit 0 0 0 0 0 1.

Definition umul (a b : Unit) : Unit :=
  mkUnit (e_ph a + e_ph b) (e_electron a + e_electron b)
         (e_pixel a + e_pixel b) (e_s a + e_s b) (e_m a + e_m b)
         (e_arcsec a + e_arcsec b).

Definition uinv (a : Unit) : Unit :=
  mkUnit (- e_ph a) (- e_electron a) (- e_pixel a) (- e_s a) (- e_m a)
         (- e_arcsec a).

Definition udiv (a b : Unit) : Unit := umul a (uinv b).

Definition ueqb (a b : Unit) : bool :=
  (e_ph a =? e_ph b)%Z && (e_electron a =? e_electron b)%Z &&
  (e_pixel a =? e_pixel b)%Z && (e_s a =? e_s b)%Z &&
  (e_m a =? e_m b)%Z && (e_arcsec a =? e_arcsec b)%Z.

Record Quantity := mkQ { value : R; unit : Unit }.

(** [x * unit] for a bare number [x]. *)
Definition of_number (x : R) (un : Unit) : Quantity := mkQ x un.

(** [1 * u.hour]: kept in seconds. *)
Definition hours (x : R) : Quantity := mkQ (x * 3600) s.

(** [q1 * q2], [q * x] and [q1 / q2] build a new quantity. *)
Definition qmul (a b : Quantity) : Quantity :=
  mkQ (value a * value b) (umul (unit a) (unit b)).
Definition qscale (a : Quantity) (x : R) : Quantity :=
  mkQ (value a * x) (unit a).
Definition qdiv (a b : Quantity) : Quantity :=
  mkQ (value a / value b) (udiv (unit a) (unit b)).

End Units.
Import Units.

(** Decidable comparisons of reals as booleans. *)
Definition Rgtb (x y : R) : bool := if Rgt_dec x y then true else false.
Definition Rltb (x y : R) : bool := if Rlt_dec x y then true else false.
Definition Rleb (x y : R) : bool := if Rle_dec x y then true else false.
Definition Rgeb (x y : R) : bool := if Rge_dec x y then true else false.

(** ** Exceptions and results *)

(** The pieces of an f-string: literal text and formatted values. *)
Inductive fpart :=
| Lit (text : string)
| FmtStr (v : string)
| FmtFloat (v : R)
| FmtStrList (v : list string).

(** [UnitsError] and [UnitConversionError] are astropy's; both are
    subclasses of [ValueError] there, they are kept apart here. *)
Inductive exn :=
| ValueError (msg : list fpart)
| UnitsError
| UnitConversionError.

Inductive result (A : Type) :=
| Ok (a : A)
| Raise (e : exn).
Arguments Ok {A} a.
Arguments Raise {A} e.

(** Operations of [Quantity] that check the units. *)
Definition qadd (a b : Quantity) : result Quantity :=
  if ueqb (unit a) (unit b) then Ok (mkQ (value a + value b) (unit a))
  else Raise UnitConversionError.

Definition qcompare (cmp : R -> R -> bool) (a b : Quantity) : result bool :=
  if ueqb (unit a) (unit b) then Ok (cmp (value a) (value b))
  else Raise UnitConversionError.

Definition qgt := qcompare Rgtb.
Definition qge := qcompare Rgeb.
Definition qle := qcompare Rleb.

Definition to_value (a : Quantity) (un : Unit) : result R :=
  if ueqb (unit a) un then Ok (value a) else Raise UnitConversionError.

(** ** The world: class object, instances, memo table, standard output *)

(** A magnitude is a bare float (a Vega magnitude) or a quantity tagged
    with its photometric system ([MagUnit = Union[float, u.Quantity]]). *)
Inductive Mag :=
| MagFloat (v : R)
| MagQuantity (v : R) (system : string).

(** The attributes of the class object [ETC]. *)
Record ETC_class := mkClass {
  instrument : string;
  observatory : string;
  bands : list string;
  readout_noise : Quantity;
  dark_noise : Quantity;
  pixel_scale : Quantity;
  telescope_size : Quantity;
  quantum_efficiency : Quantity;
  linearity_limit : Quantity;
  saturation_limit : Quantity;
  seeing : Quantity;
  airmass : R;
  moon_illumination : R }.

(** The dictionary of an instance: only the attributes the methods assign.
    [None] means the attribute is looked up in the class. *)
Record ETC_dict := mkDict {
  self_seeing : option Quantity;
  self_airmass : option R;
  self_moon_illumination : option R }.

(** Instances are named by numbers; [ETC()] runs an empty [__init__]. *)
Definition instance := nat.

(** Key of the memo table of [lru_cache]: the positional arguments. *)
Definition Key := (instance * string * Mag)%type.

Record World := mkWorld {
  klass : ETC_class;
  objects : instance -> ETC_dict;
  memo : list (Key * Quantity);
  stdout : list string }.

Definition set_klass (w : World) (c : ETC_class) : World :=
  mkWorld c (objects w) (memo w) (stdout w).
Definition set_objects (w : World) (o : instance -> ETC_dict) : World :=
  mkWorld (klass w) o (memo w) (stdout w).
Definition set_memo (w : World) (t : list (Key * Quantity)) : World :=
  mkWorld (klass w) (objects w) t (stdout w).
Definition set_stdout (w : World) (o : list string) : World :=
  mkWorld (klass w) (objects w) (memo w) o.

Definition set_saturation_limit (c : ETC_class) (q : Quantity) : ETC_class :=
  mkClass (instrument c) (observatory c) (bands c) (readout_noise c)
          (dark_noise c) (pixel_scale c) (telescope_size c)
          (quantum_efficiency c) (linearity_limit c) q (seeing c)
          (airmass c) (moon_illumination c).

(** The class statement of the source. *)
Definition ETC : ETC_class := {|
  instrument := "HAWKI";
  observatory := "Paranal";
  bands := ["Ks"; "Y"; "J"; "H"; "CH4"; "H2"; "NB1060"; "NB1190"; "NB2090";
            "BrGamma"]%string;
  readout_noise := of_number 5 (udiv electron pixel);
  dark_noise := of_number (1 / 100) (udiv (udiv electron pixel) s);
  pixel_scale := of_number ((1063 / 10000) ^ 2) (udiv dimensionless pixel);
  telescope_size := qscale (mkQ ((8 / 2) ^ 2) (umul m m)) PI;
  quantum_efficiency := of_number (8 / 10) (udiv electron ph);
  linearity_limit := of_number 100000 (udiv electron pixel);
  saturation_limit := of_number 120000 (udiv electron pixel);
  seeing := of_number 1 arcsec;
  airmass := 1;
  moon_illumination := 1 / 2 |}.

Definition empty_dict : ETC_dict := mkDict None None None.

(** The world after the module is imported: no instance has assigned an
    attribute, nothing is memoised, nothing was printed. *)
Definition initial_world : World :=
  mkWorld ETC (fun _ => empty_dict) [] [].

(** ** The monad of methods *)

Definition M (A : Type) := World -> result A * World.

Definition ret {A} (a : A) : M A := fun w => (Ok a, w).
Definition raise {A} (e : exn) : M A := fun w => (Raise e, w).
Definition bind {A B} (c : M A) (f : A -> M B) : M B :=
  fun w => match c w with
           | (Ok a, w') => f a w'
           | (Raise e, w') => (Raise e, w')
           end.
Definition lift {A} (r : result A) : M A := fun w => (r, w).

Notation "x <- c1 ;; c2" := (bind c1 (fun x => c2))
  (at level 61, c1 at next level, right associativity).
Notation "c1 ;; c2" := (bind c1 (fun _ => c2))
  (at level 61, right associativity).

(** Reading an attribute that only the class defines. *)
Definition attr {A} (f : ETC_class -> A) : M A :=
  fun w => (Ok (f (klass w)), w).

(** [print(line)]. *)
Definition print (line : string) : M Datatypes.unit :=
  fun w => (Ok tt, set_stdout w (stdout w ++ [line])).

(** [@u.quantity_input(arg=un)]: the argument must have equivalent units. *)
Definition quantity_input (q : Quantity) (un : Unit) : M Datatypes.unit :=
  if ueqb (unit q) un then ret tt else raise UnitsError.

(** ** [functools.lru_cache] *)

Definition Mag_eq_dec (a b : Mag) : {a = b} + {a <> b}.
Proof.
  decide equality; try apply string_dec; apply Req_dec_T.
Defined.

Definition Key_eq_dec (a b : Key) : {a = b} + {a <> b}.
Proof.
  decide equality; try apply Mag_eq_dec.
  decide equality; try apply string_dec; apply Nat.eq_dec.
Defined.

Fixpoint memo_find (k : Key) (t : list (Key * Quantity)) : option Quantity :=
  match t with
  | [] => None
  | (k', v) :: t' => if Key_eq_dec k k' then Some v else memo_find k t'
  end.

Fixpoint memo_remove (k : Key) (t : list (Key * Quantity))
  : list (Key * Quantity) :=
  match t with
  | [] => []
  | (k', v) :: t' =>
      if Key_eq_dec k k' then memo_remove k t' else (k', v) :: memo_remove k t'
  end.

(** The default [maxsize] of [lru_cache()]. *)
Definition maxsize : nat := 128.

(** The table is kept most recently used first.  A hit returns the stored
    object and moves its entry to the front; a miss runs the function,
    stores the result in front and drops the least recently used entry of
    a full table.  A call that raises stores nothing. *)
Definition lru_cache (f : Key -> M Quantity) (k : Key) : M Quantity :=
  fun w =>
    match memo_find k (memo w) with
    | Some v => (Ok v, set_memo w ((k, v) :: memo_remove k (memo w)))
    | None =>
        match f k w with
        | (Ok v, w') =>
            (Ok v, set_memo w' ((k, v) :: firstn (maxsize - 1) (memo w')))
        | (Raise e, w') => (Raise e, w')
        end
    end.

(** ** The methods of [ETC] *)

(** The object a local variable is bound to: a quantity of its own, or the
    object stored in the class attribute [saturation_limit] (after
    [signal = self.saturation_limit]). *)
Inductive qref :=
| Fresh (q : Quantity)
| SaturationLimit.

Definition deref (r : qref) : M Quantity :=
  match r with
  | Fresh q => ret q
  | SaturationLimit => attr saturation_limit
  end.

(** [r *= x] is [Quantity.__imul__]: the object is multiplied in place. *)
Definition imul (r : qref) (x : R) : M qref :=
  match r with
  | Fresh q => ret (Fresh (qscale q x))
  | SaturationLimit =>
      fun w =>
        let c := klass w in
        (Ok SaturationLimit,
         set_klass w (set_saturation_limit c (qscale (saturation_limit c) x)))
  end.

(** [self.x = v] on the three attributes the class assigns. *)
Definition setattr (self : instance) (f : ETC_dict -> ETC_dict)
  : M Datatypes.unit :=
  fun w =>
    (Ok tt,
     set_objects w (fun i => if Nat.eqb i self then f (objects w i)
                             else objects w i)).

Definition set_self_seeing (v : Quantity) (d : ETC_dict) : ETC_dict :=
  mkDict (Some v) (self_airmass d) (self_moon_illumination d).
Definition set_self_airmass (v : R) (d : ETC_dict) : ETC_dict :=
  mkDict (self_seeing d) (Some v) (self_moon_illumination d).
Definition set_self_moon_illumination (v : R) (d : ETC_dict) : ETC_dict :=
  mkDict (self_seeing d) (self_airmass d) (Some v).

(** [self.x] for the three observing conditions: the dictionary of the
    instance first, then the class. *)
Definition getattr_seeing (w : World) (self : instance) : Quantity :=
  match self_seeing (objects w self) with
  | Some v => v
  | None => seeing (klass w)
  end.
Definition getattr_airmass (w : World) (self : instance) : R :=
  match self_airmass (objects w self) with
  | Some v => v
  | None => airmass (klass w)
  end.
Definition getattr_moon_illumination (w : World) (self : instance) : R :=
  match self_moon_illumination (objects w self) with
  | Some v => v
  | None => moon_illumination (klass w)
  end.

Definition WARN_LINEARITY : string :=
  "WARNING: Signal is above the linearity limit of the detector".
Definition WARN_SATURATION : string :=
  "WARNING: Signal is above the saturation limit of the detector".
Definition WARN_1_HOUR : string :=
  "WARNING: total exposure time is longer than 1 hour".
Definition WARN_3_HOURS : string :=
  "WARNING: The maximum exposure time of 3 hours was reached. Stopping the calculation.".

Section Methods.

(** The external photometric service [hmbp.for_flux_in_filter(band, mag,
    instrument=..., observatory=...)]: a function of its arguments whose
    result is a flux in ph / (s m2); the number is all the model keeps
    open. *)
Variable for_flux_in_filter : string -> Mag -> string -> string -> R.

Definition hmbp_for_flux_in_filter (band : string) (mag : Mag)
    (ins obs : string) : Quantity :=
  of_number (for_flux_in_filter band mag ins obs) (udiv (udiv ph s) (umul m m)).

(** The body of [photons_in_filter], under its decorator below. *)
Definition photons_in_filter_body (k : Key) : M Quantity :=
  let '(self, band, mag) := k in
  valid <- attr bands ;;
  if in_dec string_dec band valid then
    ins <- attr instrument ;;
    obs <- attr observatory ;;
    let photons := hmbp_for_flux_in_filter band mag ins obs in
    area <- attr telescope_size ;;
    let photons := qmul photons area in
    scale <- attr pixel_scale ;;
    let photons := qmul photons scale in
    ret photons
  else
    raise (ValueError [Lit "Unexpected filter name, received "; FmtStr band;
                       Lit " but expected one of "; FmtStrList valid]).

Definition photons_in_filter (self : instance) (band : string) (mag : Mag)
  : M Quantity :=
  lru_cache photons_in_filter_body (self, band, mag).

Definition initialize_observing_conditions (self : instance)
    (seeing : Quantity) (moon_illumination : R) (airmass : R)
  : M Datatypes.unit :=
  quantity_input seeing arcsec ;;
  if negb (Rleb 0 moon_illumination && Rleb moon_illumination 1) then
    raise (ValueError [Lit "moon_illumination must be between 0 and 1, but got ";
                       FmtFloat moon_illumination])
  else
    setattr self (set_self_moon_illumination moon_illumination) ;;
    setattr self (set_self_airmass airmass) ;;
    setattr self (set_self_seeing seeing).

Definition get_snr (self : instance) (band : string) (mag : Mag)
    (dit : Quantity) (ndit : Z) : M R :=
  quantity_input dit s ;;
  photons <- photons_in_filter self band mag ;;
  let exposure_time := qscale dit (IZR ndit) in
  qe <- attr quantum_efficiency ;;
  let signal := qmul (qmul photons dit) qe in
  lin <- attr linearity_limit ;;
  above <- lift (qgt signal lin) ;;
  (if above : bool then print WARN_LINEARITY else ret tt) ;;
  sat <- attr saturation_limit ;;
  above <- lift (qgt signal sat) ;;
  signal <- (if above : bool
             then print WARN_SATURATION ;; ret SaturationLimit
             else ret (Fresh signal)) ;;
  signal <- imul signal (IZR ndit) ;;
  ron <- attr readout_noise ;;
  let readout_noise := qscale ron (IZR ndit) in
  dark <- attr dark_noise ;;
  let dark_noise := qmul dark exposure_time in
  sig <- deref signal ;;
  electrons <- lift (to_value sig (udiv electron pixel)) ;;
  let photon_noise := of_number (sqrt electrons) (udiv electron pixel) in
  noise <- lift (qadd readout_noise dark_noise) ;;
  noise <- lift (qadd noise photon_noise) ;;
  snr <- lift (to_value (qdiv sig noise) dimensionless) ;;
  ret snr.

(** The two time guards at the end of one turn of the loop of [get_ndit]:
    the new value of [is_warning], and whether the loop breaks. *)
Definition time_guards (dit : Quantity) (ndit : Z) (is_warning : bool)
  : M (bool * bool) :=
  long <- lift (qge (qscale dit (IZR ndit)) (hours 1)) ;;
  is_warning <- (if (long : bool) && negb is_warning
                 then print WARN_1_HOUR ;; ret true
                 else ret is_warning) ;;
  cap <- lift (qge (qscale dit (IZR ndit)) (hours 3)) ;;
  if cap : bool then print WARN_3_HOURS ;; ret (is_warning, true)
  else ret (is_warning, false).

(** The [while] loop of [get_ndit].  One unit of fuel is spent per turn;
    [None] means the fuel ran out before the loop ended. *)
Fixpoint get_ndit_loop (fuel : nat) (self : instance) (band : string)
    (snr : R) (mag : Mag) (dit : Quantity) (is_warning : bool) (snr_n : R)
    (ndit : Z) (w : World) : option (result Z * World) :=
  if Rltb snr_n snr then
    match fuel with
    | O => None
    | S fuel' =>
        let ndit := (ndit + 1)%Z in
        match get_snr self band mag dit ndit w with
        | (Raise e, w1) => Some (Raise e, w1)
        | (Ok snr_n, w1) =>
            match time_guards dit ndit is_warning w1 with
            | (Raise e, w2) => Some (Raise e, w2)
            | (Ok (is_warning, true), w2) => Some (Ok ndit, w2)
            | (Ok (is_warning, false), w2) =>
                get_ndit_loop fuel' self band snr mag dit is_warning snr_n
                              ndit w2
            end
        end
    end
  else Some (Ok ndit, w).

(** The checks before the loop. *)
Definition get_ndit_checks (dit : Quantity) : M Datatypes.unit :=
  quantity_input dit s ;;
  nonpositive <- lift (qle dit (of_number 0 s)) ;;
  if nonpositive : bool then raise (ValueError [Lit "DIT must be positive"])
  else ret tt.

Definition get_ndit (fuel : nat) (self : instance) (band : string) (snr : R)
    (mag : Mag) (dit : Quantity) (w : World) : option (result Z * World) :=
  match get_ndit_checks dit w with
  | (Raise e, w') => Some (Raise e, w')
  | (Ok _, w') => get_ndit_loop fuel self band snr mag dit false 0 0 w'
  end.

End Methods.

(** ** The invariant of the worlds and the formulas of the specification

    The definitions below are not read off the source: [class_of],
    [constants_kept], [memo_ok] and [sound] state the invariant under which
    the methods are studied, and [signal_per_exposure] to [signal_to_noise]
    follow the steps of section 4.3 of the specification on plain numbers.
    Lemma [get_snr_spec] relates them to [get_snr]. *)

(** The class statement with another number in [saturation_limit] and other
    default observing conditions; every other attribute as in the source. *)
Definition class_of (limit : R) (sg : Quantity) (am mi : R) : ETC_class :=
  mkClass (instrument ETC) (observatory ETC) (bands ETC) (readout_noise ETC)
          (dark_noise ETC) (pixel_scale ETC) (telescope_size ETC)
          (quantum_efficiency ETC) (linearity_limit ETC)
          (of_number limit (udiv electron pixel)) sg am mi.

(** The instrument constants are those of the class statement and the
    saturation limit is a number of electrons per pixel. *)
Definition constants_kept (c : ETC_class) : Prop :=
  c = class_of (value (saturation_limit c)) (seeing c) (airmass c)
               (moon_illumination c).

(** The number of electrons per pixel in [saturation_limit]. *)
Definition limit_of (w : World) : R := value (saturation_limit (klass w)).

Definition photon_unit : Unit := udiv (udiv ph pixel) s.

Section Specification.

Variable for_flux_in_filter : string -> Mag -> string -> string -> R.

(** Photon rate in ph / (pixel s): the flux of the service scaled by the
    collecting area [pi * (8/2 m)^2] and the pixel scale [0.1063^2 / pixel]. *)
Definition photon_rate (band : string) (mag : Mag) : R :=
  for_flux_in_filter band mag "HAWKI"%string "Paranal"%string
  * ((8 / 2) ^ 2 * PI) * (1063 / 10000) ^ 2.

Definition photons_of (band : string) (mag : Mag) : Quantity :=
  mkQ (photon_rate band mag) photon_unit.

(** Every memoised entry is what the body computes for a supported band. *)
Definition memo_ok (t : list (Key * Quantity)) : Prop :=
  forall self band mag v,
    In ((self, band, mag), v) t ->
    In band (bands ETC) /\ v = photons_of band mag.

(** The worlds the public methods produce from [initial_world]: the
    constants are kept and the memo table is coherent (lemmas
    [sound_initial_world], [get_snr_invariant], [get_ndit_invariant],
    [sound_photons_in_filter], [sound_initialize_observing_conditions]). *)
Definition sound (w : World) : Prop :=
  constants_kept (klass w) /\ memo_ok (memo w).

(** The memo table after a call of [photons_in_filter] on a supported band. *)
Definition memo_next (k : Key) (t : list (Key * Quantity))
  : list (Key * Quantity) :=
  match memo_find k t with
  | Some v => (k, v) :: memo_remove k t
  | None => (k, photons_of (snd (fst k)) (snd k)) :: firstn (maxsize - 1) t
  end.

(** Steps 3 to 11 of the signal-to-noise computation of the specification,
    on numbers: [limit] is the saturation limit in e-/pixel, [rate] the
    photon rate in ph/pixel/s, [dit] the integration time in seconds. *)
Definition signal_per_exposure (rate dit : R) : R := rate * dit * (8 / 10).

Definition clamped_signal (limit rate dit : R) : R :=
  if Rgtb (signal_per_exposure rate dit) limit then limit
  else signal_per_exposure rate dit.

Definition accumulated_signal (limit rate dit : R) (ndit : Z) : R :=
  clamped_signal limit rate dit * IZR ndit.

Definition total_noise (dit : R) (ndit : Z) (signal : R) : R :=
  5 * IZR ndit + 1 / 100 * (dit * IZR ndit) + sqrt signal.

Definition signal_to_noise (limit rate dit : R) (ndit : Z) : R :=
  accumulated_signal limit rate dit ndit
  / total_noise dit ndit (accumulated_signal limit rate dit ndit).

(** What [get_snr] prints. *)
Definition snr_warnings (limit rate dit : R) : list string :=
  (if Rgtb (signal_per_exposure rate dit) 100000 then [WARN_LINEARITY]
   else [])
  ++ (if Rgtb (signal_per_exposure rate dit) limit then [WARN_SATURATION]
      else []).

(** The number left in [saturation_limit] by [get_snr]. *)
Definition limit_after (limit rate dit : R) (ndit : Z) : R :=
  if Rgtb (signal_per_exposure rate dit) limit then limit * IZR ndit
  else limit.

(** The world after [get_snr] returned. *)
Definition world_after_snr (w : World) (self : instance) (band : string)
    (mag : Mag) (dit : R) (ndit : Z) : World :=
  let c := klass w in
  mkWorld (class_of (limit_after (limit_of w) (photon_rate band mag) dit ndit)
                    (seeing c) (airmass c) (moon_illumination c))
          (objects w)
          (memo_next (self, band, mag) (memo w))
          (stdout w ++ snr_warnings (limit_of w) (photon_rate band mag) dit).

(** What one turn of the search of [get_ndit] prints after its call of
    [get_snr], for an integration time of [d] seconds. *)
Definition guards_output (d : R) (ndit : Z) (is_warning : bool)
  : list string :=
  (if Rgeb (d * IZR ndit) (1 * 3600) && negb is_warning then [WARN_1_HOUR]
   else [])
  ++ (if Rgeb (d * IZR ndit) (3 * 3600) then [WARN_3_HOURS] else []).

(** The least integer not below [x], and the bound [ceil (3 hours / dit)]
    on the turns of the search. *)
Definition ceiling (x : R) : Z := (1 - up (- x))%Z.

Definition max_turns (d : R) : nat := Z.to_nat (ceiling (3 * 3600 / d)).

(** The saturation limit after the turns 1 .. k of the search. *)
Fixpoint search_limit (limit rate d : R) (k : nat) : R :=
  match k with
  | O => limit
  | S k' => limit_after (search_limit limit rate d k') rate d (Z.of_nat k)
  end.

(** The signal-to-noise ratio of turn [k] of the search, on numbers. *)
Definition search_snr (limit rate d : R) (k : nat) : R :=
  signal_to_noise (search_limit limit rate d (pred k)) rate d (Z.of_nat k).

(** The value of [is_warning] and the world after the turns 1 .. k of the
    search that starts in [w], when none of them leaves the loop. *)
Fixpoint search_world (self : instance) (band : string) (mag : Mag)
    (dit : Quantity) (w : World) (k : nat) : bool * World :=
  match k with
  | O => (false, w)
  | S k' =>
      let '(is_warning, wk) := search_world self band mag dit w k' in
      let '(_, w1) :=
        get_snr for_flux_in_filter self band mag dit (Z.of_nat k) wk in
      match time_guards dit (Z.of_nat k) is_warning w1 with
      | (Ok (is_warning', _), w2) => (is_warning', w2)
      | (Raise _, w2) => (is_warning, w2)
      end
  end.

(** The call of [get_snr] that turn [k] of the search makes: with
    [ndit = k], in the world left by the turns before it. *)
Definition search_call (self : instance) (band : string) (mag : Mag)
    (dit : Quantity) (w : World) (k : nat) : result R :=
  fst (get_snr for_flux_in_filter self band mag dit (Z.of_nat k)
               (snd (search_world self band mag dit w (pred k)))).

End Specification.

(** ** Stubs of the photometric service, for the worked scenarios *)

(** A service under which the photon rate is exactly 1000 ph/pixel/s. *)
Definition flux_for_rate_1000 (_ : string) (_ : Mag) (_ _ : string) : R :=
  1000 / ((8 / 2) ^ 2 * PI * (1063 / 10000) ^ 2).

(** A faint target: 1 ph / (s m2) in every band. *)
Definition faint_flux (_ : string) (_ : Mag) (_ _ : string) : R := 1.

(** A bright target: 10^6 ph / (s m2) in every band, which saturates the
    detector within a ten second exposure. *)
Definition bright_flux (_ : string) (_ : Mag) (_ _ : string) : R := 1000000.

(** A service that tells a bright target from a faint one: 10^6
    ph / (s m2) for a bare magnitude of at most 0, 1 ph / (s m2)
    otherwise. *)
Definition two_target_flux (_ : string) (mag : Mag) (_ _ : string) : R :=
  match mag with
  | MagFloat v => if Rleb v 0 then 1000000 else 1
  | MagQuantity _ _ => 1
  end.

(** ** The test suite (test/test_etc.py)

    A test ends in one of three ways: it returns, an [assert] fails, or an
    exception of the code under test escapes.  [ETC()] runs an empty
    [__init__], so a test takes the instance it creates as a parameter;
    the fixtures of conftest.py are the other parameters.
    [isinstance(x, float)], [isinstance(x, int)] and
    [isinstance(x, u.Quantity)] hold by the types of the model. *)

Inductive outcome :=
| Passed
| AssertionFailed
| Errored (e : exn).

(** The exception classes a test can name in [except error]. *)
Inductive exn_class :=
| ValueError_class
| UnitsError_class
| UnitConversionError_class
| AssertionError_class
| Exception_class.

(** [isinstance(e, c)] for the exceptions of the model: astropy derives
    [UnitConversionError] from [UnitsError] and [UnitsError] from
    [ValueError]. *)
Definition isinstance (e : exn) (c : exn_class) : bool :=
  match c, e with
  | Exception_class, _ => true
  | ValueError_class, _ => true
  | UnitsError_class, (UnitsError | UnitConversionError) => true
  | UnitConversionError_class, UnitConversionError => true
  | _, _ => false
  end.

(** [isinstance(AssertionError(), c)]. *)
Definition assertion_isinstance (c : exn_class) : bool :=
  match c with
  | AssertionError_class | Exception_class => true
  | _ => false
  end.

Section Tests.

Variable for_flux_in_filter : string -> Mag -> string -> string -> R.

Definition test_photons (self : instance) (band : string) (mag : Mag)
    (w : World) : outcome * World :=
  match photons_in_filter for_flux_in_filter self band mag w with
  | (Raise e, w1) => (Errored e, w1)
  | (Ok photons, w1) =>
      if ueqb (unit photons) (udiv (udiv ph pixel) s) then
        match qgt photons (of_number 0 (udiv (udiv ph pixel) s)) with
        | Ok true => (Passed, w1)
        | Ok false => (AssertionFailed, w1)
        | Raise e => (Errored e, w1)
        end
      else (AssertionFailed, w1)
  end.

(** [band_error] is the pair of a band and the exception class expected.
    When the call returns, [assert False] raises an [AssertionError] inside
    the [try]; the handler catches it only if [error] covers it. *)
Definition test_photons_band_error (self : instance)
    (band_error : string * exn_class) (mag : Mag) (w : World)
  : outcome * World :=
  let '(band, error) := band_error in
  match photons_in_filter for_flux_in_filter self band mag w with
  | (Ok _, w1) =>
      if assertion_isinstance error then (Passed, w1)
      else (AssertionFailed, w1)
  | (Raise e, w1) =>
      if isinstance e error then (Passed, w1) else (Errored e, w1)
  end.

Definition test_observing_conditions (self : instance) (seeing : Quantity)
    (moon_illumination airmass : R) (w : World) : outcome * World :=
  match initialize_observing_conditions self seeing moon_illumination airmass
                                        w with
  | (Raise e, w1) => (Errored e, w1)
  | (Ok _, w1) => (Passed, w1)
  end.

Definition test_snr (self : instance) (band : string) (mag : Mag)
    (dit : Quantity) (ndit : Z) (seeing : Quantity)
    (moon_illumination airmass : R) (w : World) : outcome * World :=
  match initialize_observing_conditions self seeing moon_illumination airmass
                                        w with
  | (Raise e, w1) => (Errored e, w1)
  | (Ok _, w1) =>
      match get_snr for_flux_in_filter self band mag dit ndit w1 with
      | (Raise e, w2) => (Errored e, w2)
      | (Ok snr, w2) =>
          if Rgtb snr 0 then (Passed, w2) else (AssertionFailed, w2)
      end
  end.

(** [None]: the search of [get_ndit] ran out of fuel. *)
Definition test_ndit (fuel : nat) (self : instance) (band : string)
    (mag : Mag) (dit : Quantity) (snr : R) (seeing : Quantity)
    (moon_illumination airmass : R) (w : World) : option (outcome * World) :=
  match initialize_observing_conditions self seeing moon_illumination airmass
                                        w with
  | (Raise e, w1) => Some (Errored e, w1)
  | (Ok _, w1) =>
      match get_ndit for_flux_in_filter fuel self band snr mag dit w1 with
      | None => None
      | Some (Raise e, w2) => Some (Errored e, w2)
      | Some (Ok ndit, w2) =>
          if (0 <? ndit)%Z then Some (Passed, w2)
          else Some (AssertionFailed, w2)
      end
  end.

End Tests.

(** ** Properties *)

(** *** Comparisons *)

Lemma Rgtb_true (x y : R) : Rgtb x y = true <-> x > y.
Proof. unfold Rgtb; destruct (Rgt_dec x y); split; intros; try discriminate; auto; contradiction. Qed.

Lemma Rgtb_false (x y : R) : Rgtb x y = false <-> x <= y.
Proof. unfold Rgtb; destruct (Rgt_dec x y); split; intros; try discriminate; auto; lra. Qed.

Lemma Rltb_true (x y : R) : Rltb x y = true <-> x < y.
Proof. unfold Rltb; destruct (Rlt_dec x y); split; intros; try discriminate; auto; contradiction. Qed.

Lemma Rltb_false (x y : R) : Rltb x y = false <-> y <= x.
Proof. unfold Rltb; destruct (Rlt_dec x y); split; intros; try discriminate; auto; lra. Qed.

Lemma Rleb_true (x y : R) : Rleb x y = true <-> x <= y.
Proof. unfold Rleb; destruct (Rle_dec x y); split; intros; try discriminate; auto; contradiction. Qed.

Lemma Rleb_false (x y : R) : Rleb x y = false <-> y < x.
Proof. unfold Rleb; destruct (Rle_dec x y); split; intros; try discriminate; auto; lra. Qed.

Lemma Rgeb_true (x y : R) : Rgeb x y = true <-> x >= y.
Proof. unfold Rgeb; destruct (Rge_dec x y); split; intros; try discriminate; auto; contradiction. Qed.

Lemma Rgeb_false (x y : R) : Rgeb x y = false <-> x < y.
Proof. unfold Rgeb; destruct (Rge_dec x y); split; intros; try discriminate; auto; lra. Qed.

(** *** The memo table *)

Lemma memo_find_In (k : Key) (t : list (Key * Quantity)) (v : Quantity) :
  memo_find k t = Some v -> In (k, v) t.
Proof.
  induction t as [|[k' v'] t IH]; simpl; [discriminate|].
  destruct (Key_eq_dec k k') as [->|_]; intros H.
  - injection H as ->. now left.
  - right. now apply IH.
Qed.

Lemma memo_remove_In (k : Key) (t : list (Key * Quantity)) e :
  In e (memo_remove k t) -> In e t.
Proof.
  induction t as [|[k' v'] t IH]; simpl; [tauto|].
  destruct (Key_eq_dec k k'); simpl; intuition.
Qed.

Lemma In_firstn_inv {A} (n : nat) (l : list A) (x : A) :
  In x (firstn n l) -> In x l.
Proof.
  revert l; induction n as [|n IH]; intros [|y l]; simpl; try tauto.
  intros [H|H]; [now left|right; now apply IH].
Qed.

Section Properties.

Variable flux : string -> Mag -> string -> string -> R.

Lemma memo_next_ok (self : instance) (band : string) (mag : Mag) t :
  In band (bands ETC) ->
  memo_ok flux t -> memo_ok flux (memo_next flux (self, band, mag) t).
Proof.
  intros Hb Ht. unfold memo_next.
  destruct (memo_find (self, band, mag) t) as [v|] eqn:E;
    intros self' band' mag' v' [H|H].
  - injection H as <- <- <- <-. apply (Ht self). now apply memo_find_In.
  - apply (Ht self'). now apply memo_remove_In in H.
  - injection H as <- <- <- <-. simpl. now split.
  - apply (Ht self'). now apply In_firstn_inv in H.
Qed.

(** A class with kept constants is a [class_of]. *)
Lemma constants_kept_class_of limit sg am mi :
  constants_kept (class_of limit sg am mi).
Proof. reflexivity. Qed.

Lemma sound_initial_world : sound flux initial_world.
Proof. split; [reflexivity|]. intros ? ? ? ? []. Qed.

(** *** [photons_in_filter] *)

Lemma photons_in_filter_body_valid (self : instance) band mag w :
  constants_kept (klass w) ->
  In band (bands ETC) ->
  photons_in_filter_body flux (self, band, mag) w
  = (Ok (photons_of flux band mag), w).
Proof.
  intros Hc Hb. destruct w as [c o t out]. simpl in Hc. rewrite Hc.
  unfold photons_in_filter_body, bind, attr. cbn [klass class_of bands].
  destruct (in_dec string_dec band (bands ETC)); [|contradiction].
  reflexivity.
Qed.

Lemma photons_in_filter_body_invalid (self : instance) band mag w :
  constants_kept (klass w) ->
  ~ In band (bands ETC) ->
  photons_in_filter_body flux (self, band, mag) w
  = (Raise (ValueError [Lit "Unexpected filter name, received "; FmtStr band;
                        Lit " but expected one of "; FmtStrList (bands ETC)]),
     w).
Proof.
  intros Hc Hb. destruct w as [c o t out]. simpl in Hc. rewrite Hc.
  unfold photons_in_filter_body, bind, attr. cbn [klass class_of bands].
  destruct (in_dec string_dec band (bands ETC)); [contradiction|].
  reflexivity.
Qed.

Lemma photons_in_filter_valid (self : instance) band mag w :
  sound flux w ->
  In band (bands ETC) ->
  photons_in_filter flux self band mag w
  = (Ok (photons_of flux band mag),
     set_memo w (memo_next flux (self, band, mag) (memo w))).
Proof.
  intros [Hc Ht] Hb. unfold photons_in_filter, lru_cache, memo_next.
  destruct (memo_find (self, band, mag) (memo w)) as [v|] eqn:E.
  - apply memo_find_In, Ht in E. destruct E as [_ ->]. reflexivity.
  - rewrite photons_in_filter_body_valid by assumption. reflexivity.
Qed.

Lemma photons_in_filter_invalid (self : instance) band mag w :
  sound flux w ->
  ~ In band (bands ETC) ->
  photons_in_filter flux self band mag w
  = (Raise (ValueError [Lit "Unexpected filter name, received "; FmtStr band;
                        Lit " but expected one of "; FmtStrList (bands ETC)]),
     w).
Proof.
  intros [Hc Ht] Hb. unfold photons_in_filter, lru_cache.
  destruct (memo_find (self, band, mag) (memo w)) as [v|] eqn:E.
  - apply memo_find_In, Ht in E. tauto.
  - now rewrite photons_in_filter_body_invalid.
Qed.

(** *** [get_snr] *)

Lemma constants_kept_inv (c : ETC_class) :
  constants_kept c ->
  exists limit sg am mi, c = class_of limit sg am mi.
Proof. intros H. rewrite H. now eexists _, _, _, _. Qed.

Lemma get_snr_spec (self : instance) band mag (d : R) (ndit : Z) w :
  sound flux w ->
  In band (bands ETC) ->
  get_snr flux self band mag (mkQ d s) ndit w
  = (Ok (signal_to_noise (limit_of w) (photon_rate flux band mag) d ndit),
     world_after_snr flux w self band mag d ndit).
Proof.
  intros Hs Hb. unfold get_snr.
  unfold bind at 1. unfold quantity_input. cbn [unit ueqb]. 
  change (ueqb s s) with true. cbv iota. unfold ret at 1.
  unfold bind at 1. rewrite (photons_in_filter_valid self band mag w Hs Hb).
  destruct Hs as [Hc Ht]. destruct w as [c o t out]. simpl in Hc.
  apply constants_kept_inv in Hc. destruct Hc as (limit & sg & am & mi & ->).
  unfold limit_of, world_after_snr. cbn [klass memo objects stdout set_memo].
  set (t' := memo_next _ _ _). clearbody t'. clear Ht.
  cbn [class_of saturation_limit seeing airmass moon_illumination of_number value].
  unfold signal_to_noise, accumulated_signal, clamped_signal, snr_warnings, limit_after, total_noise.
  unfold signal_per_exposure.
  set (raw := photon_rate flux band mag * d * (8/10)).
  unfold bind, attr, lift, qgt, qcompare, photons_of.
  cbn [klass set_memo class_of quantum_efficiency linearity_limit saturation_limit ETC of_number qmul unit value].
  fold raw.
  destruct (Rgtb raw 100000) eqn:E1; destruct (Rgtb raw limit) eqn:E2;
    cbn -[Rgtb sqrt Rdiv Rmult Rplus IZR PI pow]; rewrite ?E2;
    cbn -[Rgtb sqrt Rdiv Rmult Rplus IZR PI pow];
    unfold ret; rewrite <- ?app_assoc, ?app_nil_r; reflexivity.
Qed.

Lemma ueqb_refl (a : Unit) : ueqb a a = true.
Proof. unfold ueqb. now rewrite !Z.eqb_refl. Qed.

Lemma ueqb_eq (a b : Unit) : ueqb a b = true <-> a = b.
Proof.
  split; [|intros ->; apply ueqb_refl].
  unfold ueqb. rewrite !andb_true_iff, !Z.eqb_eq.
  destruct a, b; simpl. intuition congruence.
Qed.

Lemma get_snr_bad_unit (self : instance) band mag dit ndit w :
  unit dit <> s ->
  get_snr flux self band mag dit ndit w = (Raise UnitsError, w).
Proof.
  intros H. unfold get_snr, bind at 1, quantity_input.
  destruct (ueqb (unit dit) s) eqn:E; [now apply ueqb_eq in E|reflexivity].
Qed.

Lemma get_snr_invalid_band (self : instance) band mag (d : R) ndit w :
  sound flux w ->
  ~ In band (bands ETC) ->
  get_snr flux self band mag (mkQ d s) ndit w
  = (Raise (ValueError [Lit "Unexpected filter name, received "; FmtStr band;
                        Lit " but expected one of "; FmtStrList (bands ETC)]),
     w).
Proof.
  intros Hs Hb. unfold get_snr, bind at 1, quantity_input.
  cbn [unit]. rewrite ueqb_refl. unfold ret at 1, bind at 1.
  now rewrite photons_in_filter_invalid.
Qed.

Lemma sound_world_after_snr (self : instance) band mag d ndit w :
  sound flux w ->
  In band (bands ETC) ->
  sound flux (world_after_snr flux w self band mag d ndit).
Proof.
  intros [Hc Ht] Hb. split; [reflexivity|].
  unfold world_after_snr; cbn [memo]. now apply memo_next_ok.
Qed.

Lemma limit_of_world_after_snr (self : instance) band mag d ndit w :
  limit_of (world_after_snr flux w self band mag d ndit)
  = limit_after (limit_of w) (photon_rate flux band mag) d ndit.
Proof. reflexivity. Qed.

(** *** The time guards of the search *)

Lemma time_guards_spec (d : R) (ndit : Z) (is_warning : bool) (w : World) :
  time_guards (mkQ d s) ndit is_warning w
  = (Ok (is_warning || Rgeb (d * IZR ndit) (1 * 3600),
         Rgeb (d * IZR ndit) (3 * 3600)),
     set_stdout w (stdout w ++ guards_output d ndit is_warning)).
Proof.
  unfold time_guards, guards_output, bind, lift, qge, qcompare, hours, qscale.
  cbn [unit value]. rewrite ueqb_refl.
  destruct w as [c o t out]. unfold set_stdout. cbn [klass objects memo stdout].
  destruct (Rgeb (d * IZR ndit) (1 * 3600)), is_warning,
    (Rgeb (d * IZR ndit) (3 * 3600));
    cbn -[Rgeb Rmult IZR]; unfold ret, set_stdout; cbn [klass objects memo stdout];
    rewrite <- ?app_assoc, ?app_nil_r; reflexivity.
Qed.

(** *** Termination of the search *)

Lemma ceiling_ge (x : R) : x <= IZR (ceiling x).
Proof.
  unfold ceiling. rewrite minus_IZR. destruct (archimed (- x)). lra.
Qed.

Lemma ceiling_lt (x : R) : IZR (ceiling x) < x + 1.
Proof.
  unfold ceiling. rewrite minus_IZR. destruct (archimed (- x)). lra.
Qed.

Lemma max_turns_enough (d : R) :
  0 < d -> INR (max_turns d) * d >= 3 * 3600.
Proof.
  intros Hd. unfold max_turns.
  pose proof (ceiling_ge (3 * 3600 / d)) as H.
  assert (0 < 3 * 3600 / d) by (apply Rdiv_lt_0_compat; lra).
  assert (0 <= ceiling (3 * 3600 / d))%Z by (apply le_IZR; lra).
  rewrite INR_IZR_INZ, Z2Nat.id by assumption.
  apply Rle_ge. apply (Rmult_le_compat_r d) in H; [|lra].
  unfold Rdiv in H at 1. rewrite Rmult_assoc, Rinv_l, Rmult_1_r in H; lra.
Qed.

Lemma get_ndit_loop_more_fuel (fuel fuel' : nat) self band snr mag dit
    is_warning snr_n ndit w r :
  get_ndit_loop flux fuel self band snr mag dit is_warning snr_n ndit w = Some r ->
  (fuel <= fuel')%nat ->
  get_ndit_loop flux fuel' self band snr mag dit is_warning snr_n ndit w = Some r.
Proof.
  revert fuel' is_warning snr_n ndit w.
  induction fuel as [|fuel IH]; intros fuel' iw snr_n ndit w; simpl.
  - destruct (Rltb snr_n snr) eqn:E; [discriminate|].
    intros H _. destruct fuel'; simpl; now rewrite E.
  - destruct (Rltb snr_n snr) eqn:E.
    + intros H Hle. destruct fuel' as [|fuel']; [lia|]. simpl. rewrite E.
      destruct (get_snr _ _ _ _ _ _ _) as [[x|e] w1]; [|assumption].
      destruct (time_guards _ _ _ _) as [[[iw' [|]]|e] w2]; try assumption.
      apply IH; [assumption|lia].
    + intros H _. destruct fuel'; simpl; now rewrite E.
Qed.

(** Entered with [ndit] exposures that last less than three hours and with
    fuel for the turns up to three hours, the loop ends; the count it
    returns is reached with less than three hours before its last turn. *)
Lemma get_ndit_loop_terminates (fuel : nat) self band snr mag (d : R)
    is_warning snr_n (ndit : Z) w :
  0 < d ->
  d * IZR ndit < 3 * 3600 ->
  d * (IZR ndit + INR fuel) >= 3 * 3600 ->
  exists r,
    get_ndit_loop flux fuel self band snr mag (mkQ d s) is_warning snr_n ndit w
    = Some r
    /\ forall n w', r = (Ok n, w') ->
         (ndit <= n)%Z /\ d * IZR (n - 1) < 3 * 3600.
Proof.
  intros Hd. revert is_warning snr_n ndit w.
  induction fuel as [|fuel IH]; intros iw snr_n ndit w Hlt Hge.
  - simpl in Hge. lra.
  - simpl. destruct (Rltb snr_n snr) eqn:E.
    + destruct (get_snr _ _ _ _ _ _ _) as [[x|e] w1].
      * rewrite time_guards_spec.
        destruct (Rgeb (d * IZR (ndit + 1)) (3 * 3600)) eqn:E3.
        -- eexists; split; [reflexivity|]. intros n w' [= <- _].
           split; [lia|]. now replace (ndit + 1 - 1)%Z with ndit by lia.
        -- apply Rgeb_false in E3.
           destruct (IH (iw || Rgeb (d * IZR (ndit + 1)) (1 * 3600))%bool x
                        (ndit + 1)%Z
                        (set_stdout w1 (stdout w1 ++ guards_output d (ndit + 1) iw)))
             as (r & Hr & Hn); [assumption| |].
           { rewrite plus_IZR. rewrite S_INR in Hge. lra. }
           exists r; split; [assumption|]. intros n w' Hnw.
           destruct (Hn n w' Hnw). split; [lia|assumption].
      * eexists; split; [reflexivity|]. intros n w' [=].
    + eexists; split; [reflexivity|]. intros n w' [= <- _].
      split; [lia|]. rewrite minus_IZR. lra.
Qed.

Lemma get_ndit_checks_spec (d : R) (w : World) :
  get_ndit_checks (mkQ d s) w
  = if Rleb d 0 then (Raise (ValueError [Lit "DIT must be positive"]), w)
    else (Ok tt, w).
Proof.
  unfold get_ndit_checks, bind, quantity_input, lift, qle, qcompare, of_number.
  cbn [unit value]. rewrite ueqb_refl. unfold ret at 1.
  now destruct (Rleb d 0).
Qed.

(** *** The search of [get_ndit] *)

Lemma get_ndit_loop_false (fuel : nat) self band snr mag dit is_warning snr_n
    ndit w :
  Rltb snr_n snr = false ->
  get_ndit_loop flux fuel self band snr mag dit is_warning snr_n ndit w
  = Some (Ok ndit, w).
Proof. intros E. destruct fuel; simpl; now rewrite E. Qed.

Lemma get_ndit_loop_search (limit : R) (self : instance) band snr mag (d : R) :
  In band (bands ETC) ->
  0 < d ->
  forall (fuel k : nat) is_warning snr_n w,
    sound flux w ->
    limit_of w = search_limit limit (photon_rate flux band mag) d k ->
    d * INR k < 3 * 3600 ->
    d * (INR k + INR fuel) >= 3 * 3600 ->
    snr_n < snr ->
    exists (n : nat) w',
      get_ndit_loop flux fuel self band snr mag (mkQ d s) is_warning snr_n
                    (Z.of_nat k) w
      = Some (Ok (Z.of_nat n), w')
      /\ (k < n)%nat
      /\ (search_snr limit (photon_rate flux band mag) d n >= snr
          \/ d * INR n >= 3 * 3600)
      /\ (forall j, (k < j < n)%nat ->
            search_snr limit (photon_rate flux band mag) d j < snr
            /\ d * INR j < 3 * 3600)
      /\ sound flux w'
      /\ objects w' = objects w
      /\ limit_of w' = search_limit limit (photon_rate flux band mag) d n.
Proof.
  intros Hb Hd.
  induction fuel as [|fuel IH]; intros k iw snr_n w Hs Hl Hlt Hge Hsnr.
  - simpl in Hge. lra.
  - simpl. apply Rltb_true in Hsnr. rewrite Hsnr.
    replace (Z.of_nat k + 1)%Z with (Z.of_nat (S k)) by lia.
    rewrite get_snr_spec by assumption. rewrite time_guards_spec.
    rewrite Hl. change (signal_to_noise _ _ _ _)
      with (search_snr limit (photon_rate flux band mag) d (S k)).
    set (x := search_snr _ _ _ _).
    set (w2 := set_stdout _ _).
    assert (Hs2 : sound flux w2).
    { destruct (sound_world_after_snr self band mag d (Z.of_nat (S k)) w Hs Hb).
      split; assumption. }
    assert (Hl2 : limit_of w2
                  = search_limit limit (photon_rate flux band mag) d (S k)).
    { unfold w2, limit_of. cbn [klass set_stdout].
      change (limit_after (limit_of w) (photon_rate flux band mag) d
                          (Z.of_nat (S k)) = search_limit limit
                          (photon_rate flux band mag) d (S k)).
      now rewrite Hl. }
    assert (Ho2 : objects w2 = objects w) by reflexivity.
    rewrite <- INR_IZR_INZ.
    destruct (Rgeb (d * INR (S k)) (3 * 3600)) eqn:E3.
    + apply Rgeb_true in E3. exists (S k), w2.
      split; [reflexivity|]. split; [lia|]. split; [now right|].
      split; [intros j Hj; lia|]. now repeat (split; [assumption|]).
    + apply Rgeb_false in E3.
      destruct (Rltb x snr) eqn:Ex.
      * apply Rltb_true in Ex.
        destruct (IH (S k) (iw || Rgeb (d * INR (S k)) (1 * 3600))%bool x w2)
          as (n & w' & Hrun & Hn & Hpost & Hfirst & Hs' & Ho' & Hl');
          try assumption.
        { rewrite S_INR in *. lra. }
        exists n, w'. split; [assumption|]. split; [lia|].
        split; [assumption|]. split.
        -- intros j Hj. destruct (Nat.eq_dec j (S k)) as [->|].
           ++ split; assumption.
           ++ apply Hfirst. lia.
        -- split; [assumption|]. split; [congruence|assumption].
      * rewrite get_ndit_loop_false by assumption.
        apply Rltb_false in Ex. unfold x in Ex. exists (S k), w2.
        split; [reflexivity|]. split; [lia|]. split; [left; lra|].
        split; [intros j Hj; lia|]. now repeat (split; [assumption|]).
Qed.

(** *** The signal-to-noise formula on numbers *)

Lemma Rdiv_le_cross (a b x y : R) :
  0 < x -> 0 < y -> a * y <= b * x -> a / x <= b / y.
Proof.
  intros Hx Hy H.
  replace (a / x) with (a * y * / (x * y)) by (field; lra).
  replace (b / y) with (b * x * / (x * y)) by (field; lra).
  apply Rmult_le_compat_r; [|assumption].
  left. apply Rinv_0_lt_compat. nra.
Qed.

Lemma clamped_signal_le_limit (limit rate d : R) :
  clamped_signal limit rate d <= limit.
Proof.
  unfold clamped_signal.
  destruct (Rgtb (signal_per_exposure rate d) limit) eqn:E; [lra|].
  now apply Rgtb_false in E.
Qed.

Lemma clamped_signal_le_raw (limit rate d : R) :
  clamped_signal limit rate d <= signal_per_exposure rate d.
Proof.
  unfold clamped_signal.
  destruct (Rgtb (signal_per_exposure rate d) limit) eqn:E; [|lra].
  apply Rgtb_true in E. lra.
Qed.

Lemma signal_per_exposure_pos (rate d : R) :
  0 < rate -> 0 < d -> 0 < signal_per_exposure rate d.
Proof. intros. unfold signal_per_exposure. nra. Qed.

Lemma signal_per_exposure_nonneg (rate d : R) :
  0 <= rate -> 0 < d -> 0 <= signal_per_exposure rate d.
Proof. intros. unfold signal_per_exposure. nra. Qed.

Lemma clamped_signal_pos (limit rate d : R) :
  0 < limit -> 0 < rate -> 0 < d -> 0 < clamped_signal limit rate d.
Proof.
  intros Hl Hr Hd. unfold clamped_signal.
  destruct (Rgtb _ _); [assumption|now apply signal_per_exposure_pos].
Qed.

Lemma clamped_signal_nonneg (limit rate d : R) :
  0 < limit -> 0 <= rate -> 0 < d -> 0 <= clamped_signal limit rate d.
Proof.
  intros Hl Hr Hd. unfold clamped_signal.
  destruct (Rgtb _ _); [lra|now apply signal_per_exposure_nonneg].
Qed.

Lemma total_noise_readout (d : R) (ndit : Z) (signal : R) :
  0 < d -> (1 <= ndit)%Z -> 5 * IZR ndit <= total_noise d ndit signal.
Proof.
  intros Hd Hn. apply IZR_le in Hn. unfold total_noise.
  pose proof (sqrt_pos signal). nra.
Qed.

Lemma total_noise_pos (d : R) (ndit : Z) (signal : R) :
  0 < d -> (1 <= ndit)%Z -> 0 < total_noise d ndit signal.
Proof.
  intros Hd Hn. pose proof (total_noise_readout d ndit signal Hd Hn).
  apply IZR_le in Hn. lra.
Qed.

Lemma signal_to_noise_nonneg (limit rate d : R) (ndit : Z) :
  0 < limit -> 0 <= rate -> 0 < d -> (1 <= ndit)%Z ->
  0 <= signal_to_noise limit rate d ndit.
Proof.
  intros Hl Hr Hd Hn. unfold signal_to_noise, accumulated_signal.
  pose proof (clamped_signal_nonneg limit rate d Hl Hr Hd).
  pose proof (total_noise_pos d ndit (clamped_signal limit rate d * IZR ndit) Hd Hn).
  apply IZR_le in Hn. apply Rmult_le_pos; [nra|].
  left. now apply Rinv_0_lt_compat.
Qed.

Lemma signal_to_noise_pos (limit rate d : R) (ndit : Z) :
  0 < d -> (1 <= ndit)%Z ->
  0 < accumulated_signal limit rate d ndit ->
  0 < signal_to_noise limit rate d ndit.
Proof.
  intros Hd Hn Hs. unfold signal_to_noise.
  apply Rdiv_lt_0_compat; [assumption|now apply total_noise_pos].
Qed.

Lemma signal_to_noise_mono (limit rate d : R) (m n : Z) :
  0 < limit -> 0 <= rate -> 0 < d -> (1 <= m <= n)%Z ->
  signal_to_noise limit rate d m <= signal_to_noise limit rate d n.
Proof.
  intros Hl Hr Hd [Hm Hmn].
  pose proof (clamped_signal_nonneg limit rate d Hl Hr Hd) as Hc.
  unfold signal_to_noise, accumulated_signal.
  set (c := clamped_signal limit rate d) in *.
  apply Rdiv_le_cross; try (apply total_noise_pos; [assumption|lia]).
  unfold total_noise.
  apply IZR_le in Hm, Hmn.
  set (x := IZR m) in *. set (y := IZR n) in *.
  assert (Ha : 0 <= c * x) by nra.
  assert (Hb : 0 <= c * y) by nra.
  assert (Hab : c * x <= c * y) by nra.
  pose proof (sqrt_pos (c * x)) as Hp.
  pose proof (sqrt_pos (c * y)) as Hq.
  pose proof (sqrt_sqrt (c * x) Ha) as Hpp.
  pose proof (sqrt_sqrt (c * y) Hb) as Hqq.
  pose proof (sqrt_le_1 (c * x) (c * y) Ha Hb Hab) as Hpq.
  set (p := sqrt (c * x)) in *. set (q := sqrt (c * y)) in *.
  assert (c * x * q <= c * y * p).
  { rewrite <- Hpp, <- Hqq. assert (0 <= p * q) by nra. nra. }
  nra.
Qed.

Lemma clamped_signal_mono_limit (limit limit' rate d : R) :
  limit <= limit' ->
  clamped_signal limit rate d <= clamped_signal limit' rate d.
Proof.
  intros H. unfold clamped_signal.
  destruct (Rgtb (signal_per_exposure rate d) limit) eqn:E;
    destruct (Rgtb (signal_per_exposure rate d) limit') eqn:E';
    try apply Rgtb_true in E; try apply Rgtb_true in E';
    try apply Rgtb_false in E; try apply Rgtb_false in E'; lra.
Qed.

(** A larger saturation limit never lowers the ratio. *)
Lemma signal_to_noise_mono_limit (limit limit' rate d : R) (ndit : Z) :
  0 < limit -> limit <= limit' -> 0 <= rate -> 0 < d -> (1 <= ndit)%Z ->
  signal_to_noise limit rate d ndit <= signal_to_noise limit' rate d ndit.
Proof.
  intros Hl Hll Hr Hd Hn.
  pose proof (clamped_signal_nonneg limit rate d Hl Hr Hd) as Hc.
  pose proof (clamped_signal_mono_limit limit limit' rate d Hll) as Hcc.
  unfold signal_to_noise, accumulated_signal.
  set (c := clamped_signal limit rate d) in *.
  set (c' := clamped_signal limit' rate d) in *.
  apply Rdiv_le_cross; try (apply total_noise_pos; assumption).
  unfold total_noise. apply IZR_le in Hn. set (x := IZR ndit) in *.
  assert (Ha : 0 <= c * x) by nra.
  assert (Hb : 0 <= c' * x) by nra.
  assert (Hab : c * x <= c' * x) by nra.
  pose proof (sqrt_pos (c * x)) as Hp.
  pose proof (sqrt_pos (c' * x)) as Hq.
  pose proof (sqrt_sqrt (c * x) Ha) as Hpp.
  pose proof (sqrt_sqrt (c' * x) Hb) as Hqq.
  pose proof (sqrt_le_1 (c * x) (c' * x) Ha Hb Hab) as Hpq.
  set (p := sqrt (c * x)) in *. set (q := sqrt (c' * x)) in *.
  assert (c * x * q <= c' * x * p).
  { rewrite <- Hpp, <- Hqq. assert (0 <= p * q) by nra. nra. }
  set (A := 5 * x + 1 / 100 * (d * x)).
  assert (HA : 0 <= A) by (unfold A; nra).
  assert (c * x * A <= c' * x * A) by (apply Rmult_le_compat_r; assumption).
  lra.
Qed.

Lemma search_limit_grows (limit rate d : R) (k : nat) :
  0 < limit ->
  0 < search_limit limit rate d k
  /\ search_limit limit rate d k <= search_limit limit rate d (S k).
Proof.
  intros Hl. induction k as [|k [IHpos IHle]].
  - split; [assumption|]. cbn [search_limit]. unfold limit_after.
    destruct (Rgtb _ _); cbn; lra.
  - split; [lra|]. 
    change (search_limit limit rate d (S (S k)))
      with (limit_after (search_limit limit rate d (S k)) rate d
                        (Z.of_nat (S (S k)))).
    assert (Hpos : 0 < search_limit limit rate d (S k)) by lra.
    unfold limit_after. destruct (Rgtb _ _); [|lra].
    assert (1 <= IZR (Z.of_nat (S (S k)))) by (apply IZR_le; lia).
    nra.
Qed.

(** *** The worlds of the search *)

Lemma search_world_spec (self : instance) band mag (d : R) w :
  sound flux w ->
  In band (bands ETC) ->
  forall k,
    let wk := snd (search_world flux self band mag (mkQ d s) w k) in
    sound flux wk
    /\ limit_of wk = search_limit (limit_of w) (photon_rate flux band mag) d k
    /\ objects wk = objects w.
Proof.
  intros Hs Hb. induction k as [|k IH].
  { split; [assumption|split; reflexivity]. }
  cbn zeta in IH. cbn [search_world].
  destruct (search_world flux self band mag (mkQ d s) w k) as [iw wk].
  cbn [snd] in IH. destruct IH as (Hsk & Hlk & Hok).
  rewrite get_snr_spec by assumption. rewrite time_guards_spec. cbn zeta.
  cbn [snd].
  destruct (sound_world_after_snr self band mag d (Z.of_nat (S k)) wk Hsk Hb).
  split; [now split|]. split; [|assumption].
  unfold limit_of in *. cbn [klass set_stdout search_limit].
  rewrite <- Hlk. reflexivity.
Qed.

Lemma search_call_spec (self : instance) band mag (d : R) w (k : nat) :
  sound flux w ->
  In band (bands ETC) ->
  search_call flux self band mag (mkQ d s) w k
  = Ok (search_snr (limit_of w) (photon_rate flux band mag) d k).
Proof.
  intros Hs Hb. unfold search_call, search_snr.
  destruct (search_world_spec self band mag d w Hs Hb (pred k)) as (Hsk & Hlk & _).
  rewrite get_snr_spec by assumption. cbn [fst]. now rewrite Hlk.
Qed.

Lemma search_limit_unsaturated (limit rate d : R) (k : nat) :
  signal_per_exposure rate d <= limit ->
  search_limit limit rate d k = limit.
Proof.
  intros H. induction k as [|k IH]; [reflexivity|].
  cbn [search_limit]. rewrite IH. unfold limit_after.
  apply Rgtb_false in H. now rewrite H.
Qed.

(** Below the saturation limit every turn of the search computes what
    [get_snr] returns in the world the search started in. *)
Lemma search_call_unsaturated (self : instance) band mag (d : R) w (k : nat) :
  sound flux w ->
  In band (bands ETC) ->
  signal_per_exposure (photon_rate flux band mag) d <= limit_of w ->
  search_call flux self band mag (mkQ d s) w k
  = fst (get_snr flux self band mag (mkQ d s) (Z.of_nat k) w).
Proof.
  intros Hs Hb Hle. rewrite search_call_spec, get_snr_spec by assumption.
  unfold search_snr. now rewrite search_limit_unsaturated.
Qed.


Lemma sqrt_8000_bounds : 8944 / 100 < sqrt 8000 < 8945 / 100.
Proof.
  split.
  - rewrite <- (sqrt_square (8944 / 100)) by lra. apply sqrt_lt_1; lra.
  - rewrite <- (sqrt_square (8945 / 100)) by lra. apply sqrt_lt_1; lra.
Qed.

(** ** The claims *)

(** C1.  For a supported band, [dit > 0] and [ndit >= 1], [get_snr] takes
    the signal of one exposure, [photon_rate * dit * quantum_efficiency]
    (clamped at the saturation limit, and equal to the product itself when
    that is not above the limit), multiplies it by [ndit], adds the noise
    terms linearly, [readout_noise * ndit + dark_noise * (dit * ndit) +
    sqrt signal], and returns [signal / noise] as a bare number.  With a
    photon rate of exactly 1000 ph/pixel/s, [dit = 10 s] and [ndit = 1] the
    result is [8000 / (5 + 0.1 + sqrt 8000)], which lies between 84.6 and
    84.7. *)
Theorem get_snr_formula (self : instance) band mag (d : R) (ndit : Z) w :
  sound flux w ->
  In band (bands ETC) ->
  0 < d ->
  (1 <= ndit)%Z ->
  let rate := photon_rate flux band mag in
  let per_exposure := clamped_signal (limit_of w) rate d in
  let signal := per_exposure * IZR ndit in
  let noise := 5 * IZR ndit + 1 / 100 * (d * IZR ndit) + sqrt signal in
  fst (get_snr flux self band mag (mkQ d s) ndit w) = Ok (signal / noise)
  /\ (rate * d * (8 / 10) <= limit_of w ->
      per_exposure = rate * d * (8 / 10))
  /\ (rate = 1000 -> d = 10 -> ndit = 1%Z -> limit_of w = 120000 ->
      fst (get_snr flux self band mag (mkQ d s) ndit w)
      = Ok (8000 / (5 + 1 / 10 + sqrt 8000))
      /\ 846 / 10 < 8000 / (5 + 1 / 10 + sqrt 8000) < 847 / 10).
Proof.
  intros Hs Hb Hd Hn rate per_exposure signal noise.
  rewrite get_snr_spec by assumption. cbn [fst].
  split; [reflexivity|]. split.
  - intros Hle. unfold per_exposure, clamped_signal, signal_per_exposure.
    apply Rgtb_false in Hle. unfold signal_per_exposure in Hle.
    fold rate. now rewrite Hle.
  - intros Hr -> -> Hl. split.
    + unfold signal_to_noise, accumulated_signal, total_noise, clamped_signal,
        signal_per_exposure. fold rate. rewrite Hr, Hl.
      assert (E : Rgtb (1000 * 10 * (8 / 10)) 120000 = false)
        by (apply Rgtb_false; lra).
      rewrite E. do 2 f_equal; [lra|]. f_equal; [lra|f_equal; lra].
    + pose proof sqrt_8000_bounds as [Hlo Hhi].
      set (noise0 := 5 + 1 / 10 + sqrt 8000).
      assert (Hpos : 0 < noise0) by (unfold noise0; lra).
      assert (E : 8000 / noise0 * noise0 = 8000) by (field; lra).
      split; apply (Rmult_lt_reg_r noise0); try assumption;
        rewrite E; unfold noise0; lra.
Qed.

(** The clamp of [get_snr], relative to the value the class attribute
    [saturation_limit] holds when the call starts (which is the declared
    120000 e-/pixel only as long as no saturated call came before): when
    [rate * dit * quantum_efficiency] exceeds that value it is replaced by
    it, otherwise it is kept; the clamp acts before the multiplication by
    [ndit], and the photon noise, the total noise and the ratio are
    computed from the clamped value. *)
Lemma get_snr_clamps_per_exposure (self : instance) band mag (d : R)
    (ndit : Z) w :
  sound flux w ->
  In band (bands ETC) ->
  0 < d ->
  (1 <= ndit)%Z ->
  let raw := photon_rate flux band mag * d * (8 / 10) in
  let limit := limit_of w in
  exists per_exposure,
    per_exposure <= limit
    /\ (raw > limit -> per_exposure = limit)
    /\ (raw <= limit -> per_exposure = raw)
    /\ fst (get_snr flux self band mag (mkQ d s) ndit w)
       = Ok (per_exposure * IZR ndit
             / (5 * IZR ndit + 1 / 100 * (d * IZR ndit)
                + sqrt (per_exposure * IZR ndit))).
Proof.
  intros Hs Hb _ _ raw limit.
  exists (clamped_signal limit (photon_rate flux band mag) d).
  split; [apply clamped_signal_le_limit|].
  unfold clamped_signal, signal_per_exposure. fold raw.
  split; [|split].
  - intros H. apply Rgtb_true in H. now rewrite H.
  - intros H. apply Rgtb_false in H. now rewrite H.
  - now rewrite get_snr_spec.
Qed.

(** C5.  With band, magnitude and [dit > 0] fixed, a positive photon rate
    and a positive saturation limit, [get_snr] is non-decreasing in
    [ndit]: for [1 <= m <= n] the ratio for [m] exposures is at most the
    ratio for [n] exposures, both taken in the same world, whether or not
    the signal is clamped.  While the signal of one exposure is not above
    the saturation limit the two calls can also be made one after the
    other, in either order, with the same two results. *)
Theorem get_snr_monotone_in_ndit (self : instance) band mag (d : R)
    (m n : Z) w :
  sound flux w ->
  0 < limit_of w ->
  In band (bands ETC) ->
  0 < photon_rate flux band mag ->
  0 < d ->
  (1 <= m <= n)%Z ->
  exists snr_m snr_n,
    fst (get_snr flux self band mag (mkQ d s) m w) = Ok snr_m
    /\ fst (get_snr flux self band mag (mkQ d s) n w) = Ok snr_n
    /\ snr_m <= snr_n
    /\ (photon_rate flux band mag * d * (8 / 10) <= limit_of w ->
        fst (get_snr flux self band mag (mkQ d s) n
                     (snd (get_snr flux self band mag (mkQ d s) m w)))
        = Ok snr_n
        /\ fst (get_snr flux self band mag (mkQ d s) m
                        (snd (get_snr flux self band mag (mkQ d s) n w)))
           = Ok snr_m).
Proof.
  intros Hs Hl Hb Hr Hd Hmn. rewrite !get_snr_spec by assumption.
  eexists _, _. split; [reflexivity|]. split; [reflexivity|].
  split; [apply signal_to_noise_mono; try assumption; lra|].
  intros Hle. cbn [snd].
  assert (Hk : forall k,
            limit_of (world_after_snr flux w self band mag d k) = limit_of w).
  { intros k. rewrite limit_of_world_after_snr. unfold limit_after.
    apply Rgtb_false in Hle. unfold signal_per_exposure. now rewrite Hle. }
  rewrite !get_snr_spec by (assumption || now apply sound_world_after_snr).
  cbn [fst]. now rewrite !Hk.
Qed.

(** C9.  For a supported band with a non-negative photon rate, [dit > 0],
    [ndit >= 1] and a positive saturation limit, the noise that [get_snr]
    divides by is positive, at least the readout term [5 * ndit]; the
    accumulated signal is non-negative, the result is [signal / noise], it
    is non-negative, and positive whenever the accumulated signal is. *)
Theorem get_snr_noise_positive (self : instance) band mag (d : R) (ndit : Z) w :
  sound flux w ->
  0 < limit_of w ->
  In band (bands ETC) ->
  0 <= photon_rate flux band mag ->
  0 < d ->
  (1 <= ndit)%Z ->
  let signal :=
    accumulated_signal (limit_of w) (photon_rate flux band mag) d ndit in
  let noise := 5 * IZR ndit + 1 / 100 * (d * IZR ndit) + sqrt signal in
  0 <= signal
  /\ 5 * IZR ndit <= noise
  /\ 0 < noise
  /\ fst (get_snr flux self band mag (mkQ d s) ndit w) = Ok (signal / noise)
  /\ 0 <= signal / noise
  /\ (0 < signal -> 0 < signal / noise).
Proof.
  intros Hs Hl Hb Hr Hd Hn signal noise.
  pose proof (clamped_signal_nonneg _ _ _ Hl Hr Hd) as Hc.
  pose proof (total_noise_readout d ndit signal Hd Hn) as H5.
  pose proof (total_noise_pos d ndit signal Hd Hn) as Hpos.
  pose proof (signal_to_noise_nonneg _ _ _ _ Hl Hr Hd Hn) as Hge.
  split.
  { unfold signal, accumulated_signal. apply IZR_le in Hn. nra. }
  split; [exact H5|]. split; [exact Hpos|].
  split; [now rewrite get_snr_spec|]. split; [exact Hge|].
  intros Hsig. now apply signal_to_noise_pos.
Qed.


(** C6.  [photons_in_filter] raises exactly when the band is not one of
    the supported bands; the error then carries the band it received and
    the list of the supported bands, and the world is as before.  For a
    supported band it returns the flux of the service scaled by the
    collecting area and by the pixel scale, in ph / (pixel s), which is
    positive when the flux is. *)
Theorem photons_in_filter_band_check (self : instance) band mag w :
  sound flux w ->
  ((exists e, fst (photons_in_filter flux self band mag w) = Raise e)
   <-> ~ In band (bands ETC))
  /\ (~ In band (bands ETC) ->
      photons_in_filter flux self band mag w
      = (Raise (ValueError
                  [Lit "Unexpected filter name, received "; FmtStr band;
                   Lit " but expected one of ";
                   FmtStrList ["Ks"; "Y"; "J"; "H"; "CH4"; "H2"; "NB1060";
                               "NB1190"; "NB2090"; "BrGamma"]%string]),
         w))
  /\ (In band (bands ETC) ->
      exists q,
        fst (photons_in_filter flux self band mag w) = Ok q
        /\ value q = flux band mag "HAWKI"%string "Paranal"%string
                     * ((8 / 2) ^ 2 * PI) * (1063 / 10000) ^ 2
        /\ unit q = udiv ph (umul pixel s)
        /\ (0 < flux band mag "HAWKI"%string "Paranal"%string ->
            0 < value q)).
Proof.
  intros Hs. split; [|split].
  - destruct (in_dec string_dec band (bands ETC)) as [Hb|Hb].
    + rewrite photons_in_filter_valid by assumption. cbn [fst].
      split; [intros [e [=]]|contradiction].
    + rewrite photons_in_filter_invalid by assumption. cbn [fst].
      split; [auto|]. intros _. now eexists.
  - intros Hb. now rewrite photons_in_filter_invalid.
  - intros Hb. exists (photons_of flux band mag).
    rewrite photons_in_filter_valid by assumption.
    split; [reflexivity|]. split; [reflexivity|]. split; [reflexivity|].
    intros Hpos. cbn [photons_of value]. unfold photon_rate.
    pose proof PI_RGT_0. apply Rmult_lt_0_compat; [|lra].
    apply Rmult_lt_0_compat; [assumption|]. nra.
Qed.

(** C7.  For a seeing given as an angle, [initialize_observing_conditions]
    raises exactly when [moon_illumination] is outside [0, 1]; the error
    carries the value it received and the world is as before.  Otherwise
    it returns after writing the three attributes of its own instance:
    the class, the other instances, the memo table and the output are as
    before, and the instance then reads the values given. *)
Theorem initialize_observing_conditions_spec (self : instance)
    (sg : Quantity) (mi am : R) w :
  unit sg = arcsec ->
  ((exists e, fst (initialize_observing_conditions self sg mi am w) = Raise e)
   <-> ~ (0 <= mi <= 1))
  /\ (~ (0 <= mi <= 1) ->
      initialize_observing_conditions self sg mi am w
      = (Raise (ValueError
                  [Lit "moon_illumination must be between 0 and 1, but got ";
                   FmtFloat mi]),
         w))
  /\ (0 <= mi <= 1 ->
      exists w',
        initialize_observing_conditions self sg mi am w = (Ok tt, w')
        /\ klass w' = klass w
        /\ memo w' = memo w
        /\ stdout w' = stdout w
        /\ objects w' self = mkDict (Some sg) (Some am) (Some mi)
        /\ (forall i, i <> self -> objects w' i = objects w i)
        /\ getattr_seeing w' self = sg
        /\ getattr_moon_illumination w' self = mi
        /\ getattr_airmass w' self = am).
Proof.
  intros Hu.
  assert (Hbad : ~ (0 <= mi <= 1) ->
    initialize_observing_conditions self sg mi am w
    = (Raise (ValueError
                [Lit "moon_illumination must be between 0 and 1, but got ";
                 FmtFloat mi]), w)).
  { intros Hmi. unfold initialize_observing_conditions, bind, quantity_input.
    rewrite Hu, ueqb_refl. unfold ret at 1.
    destruct (Rleb 0 mi) eqn:E0; destruct (Rleb mi 1) eqn:E1;
      try reflexivity.
    apply Rleb_true in E0, E1. tauto. }
  assert (Hgood : 0 <= mi <= 1 ->
    exists w',
      initialize_observing_conditions self sg mi am w = (Ok tt, w')
      /\ klass w' = klass w
      /\ memo w' = memo w
      /\ stdout w' = stdout w
      /\ objects w' self = mkDict (Some sg) (Some am) (Some mi)
      /\ (forall i, i <> self -> objects w' i = objects w i)
      /\ getattr_seeing w' self = sg
      /\ getattr_moon_illumination w' self = mi
      /\ getattr_airmass w' self = am).
  { intros [H0 H1]. apply Rleb_true in H0, H1.
    unfold initialize_observing_conditions, bind, quantity_input.
    rewrite Hu, ueqb_refl. unfold ret at 1. rewrite H0, H1.
    cbn [andb negb]. unfold setattr.
    eexists. split; [reflexivity|].
    unfold getattr_seeing, getattr_moon_illumination, getattr_airmass.
    cbn [klass memo stdout objects set_objects].
    rewrite !Nat.eqb_refl. cbn.
    repeat (split; [reflexivity|]). split; [|now repeat split].
    intros i Hi. apply Nat.eqb_neq in Hi. now rewrite Hi. }
  split; [|split; assumption].
  destruct (Rle_dec 0 mi) as [H0|H0]; [destruct (Rle_dec mi 1) as [H1|H1]|].
  - destruct (Hgood (conj H0 H1)) as (w' & -> & _). cbn [fst].
    split; [intros [e [=]]|tauto].
  - rewrite Hbad by tauto. cbn [fst]. split; [tauto|]. intros _. now eexists.
  - rewrite Hbad by tauto. cbn [fst]. split; [tauto|]. intros _. now eexists.
Qed.


(** *** Frame of the methods *)

Lemma sound_initialize_observing_conditions (self : instance)
    (sg : Quantity) (mi am : R) w :
  sound flux w ->
  sound flux (snd (initialize_observing_conditions self sg mi am w))
  /\ limit_of (snd (initialize_observing_conditions self sg mi am w))
     = limit_of w.
Proof.
  intros Hs. unfold initialize_observing_conditions, bind, quantity_input.
  destruct (ueqb (unit sg) arcsec);
    [|unfold raise; cbn [snd]; split; [assumption|reflexivity]].
  unfold ret at 1.
  destruct (negb (Rleb 0 mi && Rleb mi 1));
    [unfold raise; cbn [snd]; split; [assumption|reflexivity]|].
  unfold setattr. cbn [snd]. split; [|reflexivity].
  destruct Hs as [Hc Ht]. split; assumption.
Qed.

Lemma sound_photons_in_filter (self : instance) band mag w :
  sound flux w ->
  sound flux (snd (photons_in_filter flux self band mag w))
  /\ limit_of (snd (photons_in_filter flux self band mag w)) = limit_of w.
Proof.
  intros Hs. destruct (in_dec string_dec band (bands ETC)) as [Hin|Hin].
  - rewrite photons_in_filter_valid by assumption. cbn [snd].
    split; [|reflexivity]. destruct Hs as [Hc Ht].
    split; [assumption|]. cbn [memo set_memo]. now apply memo_next_ok.
  - rewrite photons_in_filter_invalid by assumption. now split.
Qed.

(** [get_snr] on a supported band writes no instance; of the class it
    changes at most the object in [saturation_limit]. *)
Lemma get_snr_frame (self : instance) band mag (d : R) (ndit : Z) w :
  sound flux w ->
  In band (bands ETC) ->
  let w' := snd (get_snr flux self band mag (mkQ d s) ndit w) in
  objects w' = objects w
  /\ klass w' = set_saturation_limit (klass w) (saturation_limit (klass w')).
Proof.
  intros Hs Hb. rewrite get_snr_spec by assumption. cbn [snd].
  split; [reflexivity|]. destruct Hs as [Hc _].
  destruct w as [c o t out]. cbn [klass] in Hc.
  apply constants_kept_inv in Hc. destruct Hc as (limit & sg & am & mi & ->).
  reflexivity.
Qed.

(** *** The invariant of the calculator *)

Ltac kept := split; [assumption|split; [assumption|reflexivity]].

Lemma get_snr_cases (self : instance) band mag (dit : Quantity) (ndit : Z) w :
  sound flux w ->
  (exists e, get_snr flux self band mag dit ndit w = (Raise e, w))
  \/ (In band (bands ETC)
      /\ dit = mkQ (value dit) s
      /\ get_snr flux self band mag dit ndit w
         = (Ok (signal_to_noise (limit_of w) (photon_rate flux band mag)
                                (value dit) ndit),
            world_after_snr flux w self band mag (value dit) ndit)).
Proof.
  intros Hs. destruct (ueqb (unit dit) s) eqn:Eu.
  - apply ueqb_eq in Eu. destruct dit as [d un]. cbn [unit value] in *.
    subst un. destruct (in_dec string_dec band (bands ETC)) as [Hin|Hin].
    + right. split; [assumption|]. split; [reflexivity|].
      now apply get_snr_spec.
    + left. eexists. now apply get_snr_invalid_band.
  - left. eexists. apply get_snr_bad_unit.
    intros E. apply ueqb_eq in E. congruence.
Qed.

Lemma limit_after_pos (limit rate d : R) (ndit : Z) :
  0 < limit -> (1 <= ndit)%Z -> 0 < limit_after limit rate d ndit.
Proof.
  intros Hl Hn. apply IZR_le in Hn. unfold limit_after.
  destruct (Rgtb _ _); nra.
Qed.

(** A call of [get_snr] with at least one exposure keeps the constants,
    the coherence of the memo table and a positive saturation limit, and
    writes no instance. *)
Lemma get_snr_invariant (self : instance) band mag (dit : Quantity)
    (ndit : Z) w :
  sound flux w ->
  0 < limit_of w ->
  (1 <= ndit)%Z ->
  let w' := snd (get_snr flux self band mag dit ndit w) in
  sound flux w' /\ 0 < limit_of w' /\ objects w' = objects w.
Proof.
  intros Hs Hl Hn.
  destruct (get_snr_cases self band mag dit ndit w Hs)
    as [[e ->]|(Hin & _ & ->)]; cbn [snd].
  - kept.
  - split; [now apply sound_world_after_snr|]. split; [|reflexivity].
    rewrite limit_of_world_after_snr. now apply limit_after_pos.
Qed.

Lemma get_ndit_loop_invariant (fuel : nat) self band snr mag (d : R) :
  forall is_warning snr_n (ndit : Z) w r w',
    (0 <= ndit)%Z ->
    sound flux w ->
    0 < limit_of w ->
    get_ndit_loop flux fuel self band snr mag (mkQ d s) is_warning snr_n
                  ndit w = Some (r, w') ->
    sound flux w' /\ 0 < limit_of w' /\ objects w' = objects w.
Proof.
  induction fuel as [|fuel IH]; intros iw snr_n ndit w r w' Hn Hs Hl; simpl.
  - destruct (Rltb snr_n snr); [discriminate|].
    intros [= _ <-]. kept.
  - destruct (Rltb snr_n snr); [|intros [= _ <-]; kept].
    destruct (get_snr_invariant self band mag (mkQ d s) (ndit + 1) w Hs Hl)
      as (Hs1 & Hl1 & Ho1); [lia|].
    destruct (get_snr _ _ _ _ _ _ _) as [[x|e] w1]; cbn [snd] in *.
    + rewrite time_guards_spec.
      destruct (Rgeb (d * IZR (ndit + 1)) (3 * 3600)).
      * intros [= _ <-]. split; [|split; assumption].
        destruct Hs1. now split.
      * intros Hrun. apply IH in Hrun; try assumption; try lia.
        destruct Hrun as (? & ? & ->).
        split; [assumption|split; assumption].
    + intros [= _ <-]. split; [assumption|split; assumption].
Qed.

(** So does a call of [get_ndit]. *)
Lemma get_ndit_invariant (fuel : nat) self band snr mag (d : R) w r w' :
  sound flux w ->
  0 < limit_of w ->
  get_ndit flux fuel self band snr mag (mkQ d s) w = Some (r, w') ->
  sound flux w' /\ 0 < limit_of w' /\ objects w' = objects w.
Proof.
  intros Hs Hl. unfold get_ndit. rewrite get_ndit_checks_spec.
  destruct (Rleb d 0); [intros [= _ <-]; kept|].
  now apply get_ndit_loop_invariant.
Qed.

(** The results of [photons_in_filter] and [get_snr] do not depend on
    the observing conditions: in two worlds that agree on the instrument
    constants (saturation limit included) and whose memo tables are
    coherent, whatever the class defaults and the instance attributes
    [seeing], [moon_illumination] and [airmass], whatever was memoised or
    printed before, and whichever instance is asked, both methods return
    the same result for the same arguments.  In particular neither result
    is changed by an earlier call of [initialize_observing_conditions], of
    [photons_in_filter], or of [get_snr] with a signal per exposure that
    is not above the saturation limit. *)
Lemma results_ignore_observing_conditions (self1 self2 : instance) band mag
    (dit : Quantity) (ndit : Z) w1 w2 :
  sound flux w1 ->
  sound flux w2 ->
  limit_of w1 = limit_of w2 ->
  fst (photons_in_filter flux self1 band mag w1)
  = fst (photons_in_filter flux self2 band mag w2)
  /\ fst (get_snr flux self1 band mag dit ndit w1)
     = fst (get_snr flux self2 band mag dit ndit w2)
  /\ (forall sg mi am,
        let w1' := snd (initialize_observing_conditions self1 sg mi am w1) in
        fst (photons_in_filter flux self1 band mag w1')
        = fst (photons_in_filter flux self1 band mag w1)
        /\ fst (get_snr flux self1 band mag dit ndit w1')
           = fst (get_snr flux self1 band mag dit ndit w1))
  /\ (forall self' band' mag',
        let w1' := snd (photons_in_filter flux self' band' mag' w1) in
        fst (photons_in_filter flux self1 band mag w1')
        = fst (photons_in_filter flux self1 band mag w1)
        /\ fst (get_snr flux self1 band mag dit ndit w1')
           = fst (get_snr flux self1 band mag dit ndit w1))
  /\ (forall self' band' mag' d' ndit',
        In band' (bands ETC) ->
        signal_per_exposure (photon_rate flux band' mag') d' <= limit_of w1 ->
        let w1' := snd (get_snr flux self' band' mag' (mkQ d' s) ndit' w1) in
        fst (photons_in_filter flux self1 band mag w1')
        = fst (photons_in_filter flux self1 band mag w1)
        /\ fst (get_snr flux self1 band mag dit ndit w1')
           = fst (get_snr flux self1 band mag dit ndit w1)).
Proof.
  assert (Hphot : forall sa sb wa wb,
            sound flux wa -> sound flux wb ->
            fst (photons_in_filter flux sa band mag wa)
            = fst (photons_in_filter flux sb band mag wb)).
  { intros sa sb wa wb Ha Hb.
    destruct (in_dec string_dec band (bands ETC)) as [Hin|Hin].
    - now rewrite !photons_in_filter_valid.
    - now rewrite !photons_in_filter_invalid. }
  assert (Hsnr : forall sa sb wa wb,
            sound flux wa -> sound flux wb -> limit_of wa = limit_of wb ->
            fst (get_snr flux sa band mag dit ndit wa)
            = fst (get_snr flux sb band mag dit ndit wb)).
  { intros sa sb wa wb Ha Hb Hl.
    destruct (ueqb (unit dit) s) eqn:Eu.
    - apply ueqb_eq in Eu. destruct dit as [d un]. cbn [unit] in Eu. subst un.
      destruct (in_dec string_dec band (bands ETC)) as [Hin|Hin].
      + rewrite !get_snr_spec by assumption. cbn [fst]. now rewrite Hl.
      + now rewrite !get_snr_invalid_band.
    - assert (unit dit <> s) by (intros E; apply ueqb_eq in E; congruence).
      now rewrite !get_snr_bad_unit. }
  intros H1 H2 Hl. split; [now apply Hphot|]. split; [now apply Hsnr|].
  split; [|split].
  - intros sg mi am w1'.
    destruct (sound_initialize_observing_conditions self1 sg mi am w1 H1).
    split; [now apply Hphot|now apply Hsnr].
  - intros self' band' mag' w1'.
    destruct (sound_photons_in_filter self' band' mag' w1 H1).
    split; [now apply Hphot|now apply Hsnr].
  - intros self' band' mag' d' ndit' Hin Hle w1'.
    assert (Hw : w1' = world_after_snr flux w1 self' band' mag' d' ndit')
      by (unfold w1'; now rewrite get_snr_spec).
    assert (Hs' : sound flux w1')
      by (rewrite Hw; now apply sound_world_after_snr).
    assert (Hl' : limit_of w1' = limit_of w1).
    { rewrite Hw, limit_of_world_after_snr. unfold limit_after.
      apply Rgtb_false in Hle. now rewrite Hle. }
    split; [now apply Hphot|now apply Hsnr].
Qed.

(** C2 (as amended).  On a supported band, [get_ndit] with [dit <= 0]
    raises "DIT must be positive" and leaves the world as it was.  With
    [dit > 0] and a target that is not positive the loop is not entered
    and the result is 0.  With [dit > 0], a positive target and a photon
    rate that is not negative and whose signal of one exposure,
    [rate * dit * quantum_efficiency], is not above the saturation limit,
    the result is the first count [n >= 1] at which
    [get_snr (band, mag, dit, n)] reaches the target or [n * dit] reaches
    three hours: [get_snr] is the call made from the state the search
    started in, every smaller count gives a ratio below the target within
    three hours, every fuel from [ceil (3 hours / dit)] on gives this
    result, each turn of the search computes exactly that call, and the
    same calls give the same ratios after the search.  A target that
    saturates the detector is outside this statement. *)
Theorem get_ndit_search (self : instance) band (target : R) mag (d : R) w :
  sound flux w ->
  In band (bands ETC) ->
  (d <= 0 ->
   forall fuel,
     get_ndit flux fuel self band target mag (mkQ d s) w
     = Some (Raise (ValueError [Lit "DIT must be positive"]), w))
  /\ (0 < d -> target <= 0 ->
      forall fuel,
        get_ndit flux fuel self band target mag (mkQ d s) w
        = Some (Ok 0%Z, w))
  /\ (0 < d -> 0 < target ->
      0 <= photon_rate flux band mag ->
      photon_rate flux band mag * d * (8 / 10) <= limit_of w ->
      exists (n : nat) w',
        (forall fuel, (max_turns d <= fuel)%nat ->
           get_ndit flux fuel self band target mag (mkQ d s) w
           = Some (Ok (Z.of_nat n), w'))
        /\ (1 <= n)%nat
        /\ (exists snr_n,
              fst (get_snr flux self band mag (mkQ d s) (Z.of_nat n) w)
              = Ok snr_n
              /\ (snr_n >= target \/ d * INR n >= 3 * 3600))
        /\ (forall j, (1 <= j < n)%nat ->
              exists snr_j,
                fst (get_snr flux self band mag (mkQ d s) (Z.of_nat j) w)
                = Ok snr_j
                /\ snr_j < target /\ d * INR j < 3 * 3600)
        /\ (forall k,
              search_call flux self band mag (mkQ d s) w k
              = fst (get_snr flux self band mag (mkQ d s) (Z.of_nat k) w))
        /\ (forall k,
              fst (get_snr flux self band mag (mkQ d s) (Z.of_nat k) w')
              = fst (get_snr flux self band mag (mkQ d s) (Z.of_nat k) w))).
Proof.
  intros Hs Hb. split; [|split].
  - intros Hd fuel. unfold get_ndit. rewrite get_ndit_checks_spec.
    apply Rleb_true in Hd. now rewrite Hd.
  - intros Hd Ht fuel. unfold get_ndit. rewrite get_ndit_checks_spec.
    assert (E : Rleb d 0 = false) by (apply Rleb_false; lra).
    rewrite E. apply get_ndit_loop_false. apply Rltb_false. lra.
  - intros Hd Ht _ Hle.
    destruct (get_ndit_loop_search (limit_of w) self band target mag d Hb Hd
                (max_turns d) 0%nat false 0 w)
      as (n & w' & Hrun & Hn & Hpost & Hfirst & Hs' & _ & Hl');
      try assumption.
    + reflexivity.
    + cbn [INR]. lra.
    + cbn [INR]. pose proof (max_turns_enough d Hd). lra.
    + assert (Hcall : forall k,
                fst (get_snr flux self band mag (mkQ d s) (Z.of_nat k) w)
                = Ok (search_snr (limit_of w) (photon_rate flux band mag)
                                 d k)).
      { intros k. rewrite <- search_call_unsaturated by assumption.
        now apply search_call_spec. }
      exists n, w'. split; [|split; [lia|split; [|split; [|split]]]].
      * intros fuel Hf. unfold get_ndit. rewrite get_ndit_checks_spec.
        assert (E : Rleb d 0 = false) by (apply Rleb_false; lra).
        rewrite E. now apply (get_ndit_loop_more_fuel (max_turns d)).
      * eexists. split; [apply Hcall|assumption].
      * intros j Hj. eexists. split; [apply Hcall|].
        apply Hfirst. lia.
      * intros k. now apply search_call_unsaturated.
      * intros k. rewrite Hcall, get_snr_spec by assumption. cbn [fst].
        unfold search_snr. rewrite Hl'.
        now rewrite !search_limit_unsaturated.
Qed.

(** C4.  For every [dit > 0], whatever the world, the band, the magnitude
    and the target, the search of [get_ndit] ends: fuel for
    [ceil (3 hours / dit)] turns is enough, more fuel changes nothing, and
    a returned count is at most that number of turns. *)
Theorem get_ndit_terminates (self : instance) band (target : R) mag (d : R) w :
  0 < d ->
  3 * 3600 / d <= INR (max_turns d) < 3 * 3600 / d + 1
  /\ exists r,
       (forall fuel, (max_turns d <= fuel)%nat ->
          get_ndit flux fuel self band target mag (mkQ d s) w = Some r)
       /\ (forall n w', r = (Ok n, w') ->
             (0 <= n <= Z.of_nat (max_turns d))%Z).
Proof.
  intros Hd.
  assert (Hq : 0 < 3 * 3600 / d) by (apply Rdiv_lt_0_compat; lra).
  pose proof (ceiling_ge (3 * 3600 / d)) as Hge.
  pose proof (ceiling_lt (3 * 3600 / d)) as Hlt.
  assert (Hc : (0 <= ceiling (3 * 3600 / d))%Z) by (apply le_IZR; lra).
  assert (Hm : INR (max_turns d) = IZR (ceiling (3 * 3600 / d))).
  { unfold max_turns. now rewrite INR_IZR_INZ, Z2Nat.id. }
  split; [rewrite Hm; lra|].
  unfold get_ndit. rewrite get_ndit_checks_spec.
  assert (E : Rleb d 0 = false) by (apply Rleb_false; lra).
  rewrite E.
  destruct (get_ndit_loop_terminates (max_turns d) self band target mag d
              false 0 0%Z w Hd) as (r & Hr & Hn).
  { lra. }
  { pose proof (max_turns_enough d Hd). lra. }
  exists r. split.
  - intros fuel Hf. now apply (get_ndit_loop_more_fuel (max_turns d)).
  - intros n w' Hnw. destruct (Hn n w' Hnw) as [H0 Hlast].
    split; [assumption|].
    unfold max_turns. rewrite Z2Nat.id by assumption.
    assert (IZR (n - 1) < IZR (ceiling (3 * 3600 / d))).
    { apply Rlt_le_trans with (3 * 3600 / d); [|assumption].
      apply (Rmult_lt_reg_r d); [assumption|].
      replace (3 * 3600 / d * d) with (3 * 3600) by (field; lra). lra. }
    apply lt_IZR in H. lia.
Qed.

End Properties.

(** ** Worked scenarios *)

Lemma photon_rate_flux_for_rate_1000 (band : string) (mag : Mag) :
  photon_rate flux_for_rate_1000 band mag = 1000.
Proof.
  unfold photon_rate, flux_for_rate_1000. field. apply PI_neq0.
Qed.

Lemma photon_rate_faint_flux_pos (band : string) (mag : Mag) :
  0 < photon_rate faint_flux band mag.
Proof.
  unfold photon_rate, faint_flux. pose proof PI_RGT_0. nra.
Qed.

Lemma photon_rate_faint_flux_small (band : string) (mag : Mag) :
  photon_rate faint_flux band mag * 10 * (8 / 10) <= 10.
Proof.
  unfold photon_rate, faint_flux. pose proof PI_4. pose proof PI_RGT_0. nra.
Qed.

Lemma bright_flux_saturates (band : string) (mag : Mag) (limit : R) :
  limit <= 1200000 ->
  Rgtb (signal_per_exposure (photon_rate bright_flux band mag) 10) limit
  = true.
Proof.
  intros Hl. apply Rgtb_true.
  unfold signal_per_exposure, photon_rate, bright_flux.
  pose proof PI2_1. nra.
Qed.

Lemma limit_of_initial_world : limit_of initial_world = 120000.
Proof. reflexivity. Qed.

Lemma H2_supported : In "H2"%string (bands ETC).
Proof. simpl. tauto. Qed.

Lemma Ks_supported : In "Ks"%string (bands ETC).
Proof. simpl. tauto. Qed.

(** Instance of C1, the golden scenario: photon rate 1000 ph/pixel/s,
    [dit = 10 s], [ndit = 1], on a fresh calculator. *)
Lemma get_snr_formula_golden :
  sound flux_for_rate_1000 initial_world
  /\ In "H2"%string (bands ETC)
  /\ fst (get_snr flux_for_rate_1000 0%nat "H2" (MagFloat 20) (mkQ 10 s) 1
                  initial_world)
     = Ok (8000 / (5 + 1 / 10 + sqrt 8000))
  /\ 846 / 10 < 8000 / (5 + 1 / 10 + sqrt 8000) < 847 / 10.
Proof.
  split; [apply sound_initial_world|]. split; [apply H2_supported|].
  apply (get_snr_formula flux_for_rate_1000 0%nat "H2"%string (MagFloat 20)
           10 1 initial_world).
  - apply sound_initial_world.
  - apply H2_supported.
  - lra.
  - lia.
  - apply photon_rate_flux_for_rate_1000.
  - reflexivity.
  - reflexivity.
  - apply limit_of_initial_world.
Defined.

(** On a fresh calculator and a saturating target, ten exposures of ten
    seconds accumulate ten times the declared saturation limit. *)
Lemma get_snr_clamps_bright :
  sound bright_flux initial_world
  /\ In "Ks"%string (bands ETC)
  /\ fst (get_snr bright_flux 0%nat "Ks" (MagFloat (-10)) (mkQ 10 s) 10
                  initial_world)
     = Ok (120000 * 10 / (5 * 10 + 1 / 100 * (10 * 10) + sqrt (120000 * 10))).
Proof.
  split; [apply sound_initial_world|]. split; [apply Ks_supported|].
  destruct (get_snr_clamps_per_exposure bright_flux 0%nat "Ks"%string
              (MagFloat (-10)) 10 10 initial_world
              (sound_initial_world _) Ks_supported ltac:(lra) ltac:(lia))
    as (per_exposure & _ & Hclamp & _ & Hres).
  rewrite Hres, Hclamp; [reflexivity|].
  apply Rgtb_true.
  apply (bright_flux_saturates "Ks"%string (MagFloat (-10))).
  rewrite limit_of_initial_world. lra.
Defined.

(** Instance of C5 on a faint target: one exposure against ten. *)
Lemma get_snr_monotone_faint :
  exists snr_1 snr_10,
    fst (get_snr faint_flux 0%nat "H2" (MagFloat 20) (mkQ 10 s) 1
                 initial_world) = Ok snr_1
    /\ fst (get_snr faint_flux 0%nat "H2" (MagFloat 20) (mkQ 10 s) 10
                    initial_world) = Ok snr_10
    /\ snr_1 <= snr_10.
Proof.
  destruct (get_snr_monotone_in_ndit faint_flux 0%nat "H2"%string
              (MagFloat 20) 10 1 10 initial_world)
    as (snr_1 & snr_10 & H1 & H10 & Hle & _).
  - apply sound_initial_world.
  - rewrite limit_of_initial_world. lra.
  - apply H2_supported.
  - apply photon_rate_faint_flux_pos.
  - lra.
  - lia.
  - exists snr_1, snr_10. repeat (split; [assumption|]). assumption.
Defined.

(** Instance of C9 on the scenario of the demonstration script: band H2,
    magnitude 20, sixty exposures of ten seconds. *)
Lemma get_snr_noise_positive_faint :
  let signal :=
    accumulated_signal (limit_of initial_world)
                       (photon_rate faint_flux "H2" (MagFloat 20)) 10 60 in
  let noise := 5 * 60 + 1 / 100 * (10 * 60) + sqrt signal in
  0 <= signal
  /\ 5 * 60 <= noise
  /\ 0 < noise
  /\ fst (get_snr faint_flux 0%nat "H2" (MagFloat 20) (mkQ 10 s) 60
                  initial_world) = Ok (signal / noise)
  /\ 0 <= signal / noise
  /\ (0 < signal -> 0 < signal / noise).
Proof.
  apply (get_snr_noise_positive faint_flux 0%nat "H2"%string (MagFloat 20)
           10 60 initial_world).
  - apply sound_initial_world.
  - rewrite limit_of_initial_world. lra.
  - apply H2_supported.
  - left. apply photon_rate_faint_flux_pos.
  - lra.
  - lia.
Defined.

(** Instance of C6 on a fresh calculator: the band "A" of the test suite
    is refused, the band "Ks" is answered. *)
Lemma photons_in_filter_band_check_fresh :
  sound faint_flux initial_world
  /\ photons_in_filter faint_flux 0%nat "A" (MagFloat 20) initial_world
     = (Raise (ValueError
                 [Lit "Unexpected filter name, received "; FmtStr "A";
                  Lit " but expected one of ";
                  FmtStrList ["Ks"; "Y"; "J"; "H"; "CH4"; "H2"; "NB1060";
                              "NB1190"; "NB2090"; "BrGamma"]%string]),
        initial_world)
  /\ exists q,
       fst (photons_in_filter faint_flux 0%nat "Ks" (MagFloat 20)
                              initial_world) = Ok q
       /\ unit q = udiv ph (umul pixel s)
       /\ 0 < value q.
Proof.
  split; [apply sound_initial_world|]. split.
  - apply (photons_in_filter_band_check faint_flux 0%nat "A"%string
             (MagFloat 20) initial_world (sound_initial_world _)).
    simpl. intros H. repeat destruct H as [H|H]; try discriminate H.
    contradiction.
  - destruct (photons_in_filter_band_check faint_flux 0%nat "Ks"%string
                (MagFloat 20) initial_world (sound_initial_world _))
      as (_ & _ & H).
    destruct (H Ks_supported) as (q & Hq & _ & Hu & Hpos).
    exists q. split; [assumption|]. split; [assumption|].
    apply Hpos. unfold faint_flux. lra.
Defined.

(** Instance of C7 on the call of the demonstration script and on a moon
    illumination of 1.5. *)
Lemma initialize_observing_conditions_fresh :
  unit (of_number 1 arcsec) = arcsec
  /\ (exists w',
        initialize_observing_conditions 0%nat (of_number 1 arcsec) (1 / 2)
                                        (3 / 2) initial_world = (Ok tt, w')
        /\ klass w' = klass initial_world
        /\ getattr_moon_illumination w' 0%nat = 1 / 2
        /\ getattr_airmass w' 0%nat = 3 / 2
        /\ getattr_airmass w' 1%nat = 1)
  /\ initialize_observing_conditions 0%nat (of_number 1 arcsec) (3 / 2) 1
                                     initial_world
     = (Raise (ValueError
                 [Lit "moon_illumination must be between 0 and 1, but got ";
                  FmtFloat (3 / 2)]),
        initial_world).
Proof.
  split; [reflexivity|]. split.
  - destruct (initialize_observing_conditions_spec 0%nat (of_number 1 arcsec)
                (1 / 2) (3 / 2) initial_world eq_refl) as (_ & _ & H).
    destruct H as (w' & Hrun & Hk & _ & _ & _ & Hother & _ & Hmi & Ham);
      [lra|].
    exists w'. repeat (split; [assumption|]).
    unfold getattr_airmass. rewrite (Hother 1%nat) by discriminate.
    rewrite Hk. reflexivity.
  - apply (initialize_observing_conditions_spec 0%nat (of_number 1 arcsec)
             (3 / 2) 1 initial_world eq_refl).
    lra.
Defined.

(** A fresh calculator against one whose conditions were set. *)
Lemma results_ignore_observing_conditions_fresh :
  let w2 :=
    snd (initialize_observing_conditions 1%nat (of_number 2 arcsec) 1 (3 / 2)
                                         initial_world) in
  getattr_airmass w2 1%nat <> getattr_airmass initial_world 0%nat
  /\ fst (photons_in_filter faint_flux 0%nat "H2" (MagFloat 20) initial_world)
     = fst (photons_in_filter faint_flux 1%nat "H2" (MagFloat 20) w2)
  /\ fst (get_snr faint_flux 0%nat "H2" (MagFloat 20) (mkQ 10 s) 60
                  initial_world)
     = fst (get_snr faint_flux 1%nat "H2" (MagFloat 20) (mkQ 10 s) 60 w2).
Proof.
  intros w2.
  destruct (sound_initialize_observing_conditions faint_flux 1%nat
              (of_number 2 arcsec) 1 (3 / 2) initial_world
              (sound_initial_world _)) as [Hs2 Hl2].
  split.
  - unfold w2, initialize_observing_conditions, bind, quantity_input.
    cbn [unit of_number]. rewrite ueqb_refl. unfold ret at 1.
    assert (E0 : Rleb 0 1 = true) by (apply Rleb_true; lra).
    assert (E1 : Rleb 1 1 = true) by (apply Rleb_true; lra).
    rewrite E0, E1. cbn -[Rdiv]. unfold getattr_airmass. cbn -[Rdiv]. lra.
  - destruct (results_ignore_observing_conditions faint_flux 0%nat 1%nat
                "H2"%string (MagFloat 20) (mkQ 10 s) 60 initial_world w2
                (sound_initial_world _) Hs2 (eq_sym Hl2)) as (Hp & Hr & _).
    split; assumption.
Defined.

(** Instance of C2 on the call of the demonstration script: band H2,
    target 10, magnitude 20, ten second exposures, on a fresh
    calculator. *)
Lemma get_ndit_search_script :
  (forall fuel,
     get_ndit faint_flux fuel 0%nat "H2" 10 (MagFloat 20) (mkQ 0 s)
              initial_world
     = Some (Raise (ValueError [Lit "DIT must be positive"]), initial_world))
  /\ (forall fuel,
        get_ndit faint_flux fuel 0%nat "H2" (-1) (MagFloat 20) (mkQ 10 s)
                 initial_world
        = Some (Ok 0%Z, initial_world))
  /\ exists (n : nat) w',
       (forall fuel, (max_turns 10 <= fuel)%nat ->
          get_ndit faint_flux fuel 0%nat "H2" 10 (MagFloat 20) (mkQ 10 s)
                   initial_world = Some (Ok (Z.of_nat n), w'))
       /\ (1 <= n)%nat
       /\ (exists snr_n,
             fst (get_snr faint_flux 0%nat "H2" (MagFloat 20) (mkQ 10 s)
                          (Z.of_nat n) initial_world) = Ok snr_n
             /\ (snr_n >= 10 \/ 10 * INR n >= 3 * 3600))
       /\ (forall j, (1 <= j < n)%nat ->
             exists snr_j,
               fst (get_snr faint_flux 0%nat "H2" (MagFloat 20) (mkQ 10 s)
                            (Z.of_nat j) initial_world) = Ok snr_j
               /\ snr_j < 10 /\ 10 * INR j < 3 * 3600)
       /\ (forall k,
             fst (get_snr faint_flux 0%nat "H2" (MagFloat 20) (mkQ 10 s)
                          (Z.of_nat k) w')
             = fst (get_snr faint_flux 0%nat "H2" (MagFloat 20) (mkQ 10 s)
                            (Z.of_nat k) initial_world)).
Proof.
  split; [|split].
  - apply (get_ndit_search faint_flux 0%nat "H2"%string 10 (MagFloat 20) 0
             initial_world (sound_initial_world _) H2_supported).
    lra.
  - apply (get_ndit_search faint_flux 0%nat "H2"%string (-1) (MagFloat 20) 10
             initial_world (sound_initial_world _) H2_supported); lra.
  - destruct (get_ndit_search faint_flux 0%nat "H2"%string 10 (MagFloat 20)
                10 initial_world (sound_initial_world _) H2_supported)
      as (_ & _ & H).
    destruct H as (n & w' & Hrun & Hn & Hlast & Hfirst & _ & Hafter).
    + lra.
    + lra.
    + left. apply photon_rate_faint_flux_pos.
    + pose proof (photon_rate_faint_flux_small "H2" (MagFloat 20)).
      rewrite limit_of_initial_world. lra.
    + exists n, w'. repeat (split; [assumption|]). assumption.
Defined.

Lemma get_snr_formula_golden_value :
  signal_to_noise (limit_of initial_world)
                  (photon_rate flux_for_rate_1000 "H2" (MagFloat 20)) 10 1
  = 8000 / (5 + 1 / 10 + sqrt 8000)
  /\ 846 / 10 < 8000 / (5 + 1 / 10 + sqrt 8000) < 847 / 10.
Proof.
  split.
  - rewrite limit_of_initial_world, photon_rate_flux_for_rate_1000.
    unfold signal_to_noise, accumulated_signal, total_noise, clamped_signal,
      signal_per_exposure.
    assert (E : Rgtb (1000 * 10 * (8 / 10)) 120000 = false)
      by (apply Rgtb_false; lra).
    rewrite E.
    replace (1000 * 10 * (8 / 10) * 1) with 8000 by lra.
    replace (5 * 1 + 1 / 100 * (10 * 1)) with (5 + 1 / 10) by lra.
    reflexivity.
  - pose proof sqrt_8000_bounds as [Hlo Hhi].
    set (noise0 := 5 + 1 / 10 + sqrt 8000).
    assert (Hpos : 0 < noise0) by (unfold noise0; lra).
    assert (E : 8000 / noise0 * noise0 = 8000) by (field; lra).
    split; apply (Rmult_lt_reg_r noise0); try assumption;
      rewrite E; unfold noise0; lra.
Qed.

(** A run of the search: at 1000 ph/pixel/s a single ten second exposure
    already gives a ratio above 84, so a target of 10 is met by the first
    count, nothing is printed and the saturation limit is untouched. *)
Example get_ndit_one_exposure :
  exists w',
    get_ndit flux_for_rate_1000 1 0%nat "H2" 10 (MagFloat 20) (mkQ 10 s)
             initial_world = Some (Ok 1%Z, w')
    /\ stdout w' = []
    /\ limit_of w' = 120000.
Proof.
  unfold get_ndit. rewrite get_ndit_checks_spec.
  assert (E : Rleb 10 0 = false) by (apply Rleb_false; lra).
  rewrite E. cbn [get_ndit_loop].
  assert (E0 : Rltb 0 10 = true) by (apply Rltb_true; lra).
  rewrite E0. change (0 + 1)%Z with 1%Z.
  rewrite get_snr_spec by (apply sound_initial_world || apply H2_supported).
  rewrite time_guards_spec.
  assert (E3 : Rgeb (10 * 1) (3 * 3600) = false) by (apply Rgeb_false; lra).
  assert (E1 : Rgeb (10 * 1) (1 * 3600) = false) by (apply Rgeb_false; lra).
  rewrite E3.
  assert (Ex : Rltb (signal_to_noise (limit_of initial_world)
                       (photon_rate flux_for_rate_1000 "H2" (MagFloat 20))
                       10 1) 10 = false).
  { apply Rltb_false.
    destruct get_snr_formula_golden_value as [-> [Hlo _]]. lra. }
  rewrite Ex. eexists. split; [reflexivity|].
  assert (Eraw : forall limit, 8000 <= limit ->
            Rgtb (signal_per_exposure
                    (photon_rate flux_for_rate_1000 "H2" (MagFloat 20)) 10)
                 limit = false).
  { intros limit Hl. apply Rgtb_false. unfold signal_per_exposure.
    rewrite photon_rate_flux_for_rate_1000. lra. }
  split.
  - cbn [stdout set_stdout world_after_snr]. unfold guards_output, snr_warnings.
    rewrite E1, E3, limit_of_initial_world, !Eraw by lra. reflexivity.
  - unfold limit_of. cbn [klass set_stdout world_after_snr class_of
                          saturation_limit of_number value].
    rewrite limit_of_initial_world. unfold limit_after.
    now rewrite Eraw by lra.
Qed.

(** The wording of C2 in the specification fails for a target of 0: the
    loop is not entered and the count returned is 0, which is not
    positive. *)
Lemma get_ndit_target_zero_returns_zero :
  get_ndit faint_flux 1 0%nat "H2" 0 (MagFloat 20) (mkQ 10 s) initial_world
  = Some (Ok 0%Z, initial_world)
  /\ ~ (exists n w',
          get_ndit faint_flux 1 0%nat "H2" 0 (MagFloat 20) (mkQ 10 s)
                   initial_world = Some (Ok n, w')
          /\ (0 < n)%Z).
Proof.
  assert (E : get_ndit faint_flux 1 0%nat "H2" 0 (MagFloat 20) (mkQ 10 s)
                       initial_world = Some (Ok 0%Z, initial_world)).
  { unfold get_ndit. rewrite get_ndit_checks_spec.
    assert (E : Rleb 10 0 = false) by (apply Rleb_false; lra).
    rewrite E. apply get_ndit_loop_false. apply Rltb_false. lra. }
  split; [exact E|].
  intros (n & w' & Hrun & Hn). rewrite E in Hrun.
  injection Hrun as <- _. lia.
Qed.

(** Instance of C4 for ten second exposures: 1080 turns. *)
Lemma get_ndit_terminates_ten_seconds :
  3 * 3600 / 10 <= INR (max_turns 10) < 3 * 3600 / 10 + 1
  /\ exists r,
       (forall fuel, (max_turns 10 <= fuel)%nat ->
          get_ndit faint_flux fuel 0%nat "H2" 1000000 (MagFloat 20)
                   (mkQ 10 s) initial_world = Some r)
       /\ (forall n w', r = (Ok n, w') ->
             (0 <= n <= Z.of_nat (max_turns 10))%Z).
Proof.
  apply (get_ndit_terminates faint_flux 0%nat "H2"%string 1000000
           (MagFloat 20) 10 initial_world).
  lra.
Defined.

Lemma sqrt_120000_lower : 300 < sqrt 120000.
Proof.
  rewrite <- (sqrt_square 300) by lra. apply sqrt_lt_1; lra.
Qed.

Lemma sqrt_1200000_upper : sqrt 1200000 < 1100.
Proof.
  rewrite <- (sqrt_square 1100) by lra. apply sqrt_lt_1; lra.
Qed.

(** C8 fails on a saturating target.  The same instance is asked twice for
    the ratio of one exposure of ten seconds in band Ks: on a fresh
    calculator the answer is below 400; after an earlier call of [get_snr]
    for ten exposures, with the same observing conditions, it is above
    400. *)
Theorem get_snr_depends_on_prior_call :
  let earlier :=
    get_snr bright_flux 0%nat "Ks" (MagFloat (-10)) (mkQ 10 s) 10 in
  let asked := get_snr bright_flux 0%nat "Ks" (MagFloat (-10)) (mkQ 10 s) 1 in
  exists snr_fresh snr_later,
    fst (asked initial_world) = Ok snr_fresh
    /\ fst (asked (snd (earlier initial_world))) = Ok snr_later
    /\ objects (snd (earlier initial_world)) = objects initial_world
    /\ snr_fresh < 400
    /\ 400 < snr_later.
Proof.
  intros earlier asked. unfold earlier, asked.
  assert (Hs : sound bright_flux initial_world) by apply sound_initial_world.
  pose proof Ks_supported as Hb.
  rewrite (get_snr_spec bright_flux 0%nat "Ks"%string (MagFloat (-10)) 10 10
             initial_world Hs Hb).
  cbn [snd].
  rewrite !get_snr_spec
    by (assumption || now apply sound_world_after_snr).
  cbn [fst]. rewrite limit_of_world_after_snr, limit_of_initial_world.
  unfold limit_after. rewrite bright_flux_saturates by lra.
  unfold signal_to_noise, accumulated_signal, total_noise, clamped_signal.
  rewrite !bright_flux_saturates by lra.
  eexists _, _. split; [reflexivity|]. split; [reflexivity|].
  split; [reflexivity|].
  pose proof sqrt_120000_lower as Hlo.
  pose proof sqrt_1200000_upper as Hhi.
  pose proof (sqrt_pos 1200000) as Hpos.
  replace (120000 * 1) with 120000 by lra.
  replace (120000 * 10 * 1) with 1200000 by lra.
  replace (5 * 1 + 1 / 100 * (10 * 1)) with (51 / 10) by lra.
  split.
  - set (noise1 := 51 / 10 + sqrt 120000).
    assert (H1 : 0 < noise1) by (unfold noise1; lra).
    assert (E : 120000 / noise1 * noise1 = 120000) by (field; lra).
    apply (Rmult_lt_reg_r noise1); [assumption|].
    rewrite E. unfold noise1. lra.
  - set (noise2 := 51 / 10 + sqrt 1200000).
    assert (H2 : 0 < noise2) by (unfold noise2; lra).
    assert (E : 1200000 / noise2 * noise2 = 1200000) by (field; lra).
    apply (Rmult_lt_reg_r noise2); [assumption|].
    rewrite E. unfold noise2. lra.
Qed.

(** C10 fails on a saturating target.  A fresh calculator is asked for the
    ratio of ten exposures of ten seconds: the class attribute
    [saturation_limit], 120000 e-/pixel before the call, holds 1200000
    e-/pixel after it, and another instance asked for one exposure then
    computes with the new limit. *)
Theorem get_snr_overwrites_saturation_limit :
  let w' := snd (get_snr bright_flux 0%nat "Ks" (MagFloat (-10)) (mkQ 10 s)
                         10 initial_world) in
  saturation_limit (klass initial_world)
  = of_number 120000 (udiv electron pixel)
  /\ saturation_limit (klass w') = of_number (120000 * 10) (udiv electron pixel)
  /\ saturation_limit (klass w') <> saturation_limit (klass initial_world)
  /\ fst (get_snr bright_flux 1%nat "Ks" (MagFloat (-10)) (mkQ 10 s) 1
                  initial_world)
     = Ok (120000 * 1 / (5 * 1 + 1 / 100 * (10 * 1) + sqrt (120000 * 1)))
  /\ fst (get_snr bright_flux 1%nat "Ks" (MagFloat (-10)) (mkQ 10 s) 1 w')
     = Ok (120000 * 10 * 1
           / (5 * 1 + 1 / 100 * (10 * 1) + sqrt (120000 * 10 * 1))).
Proof.
  intros w'.
  assert (Hw' : w' = world_after_snr bright_flux initial_world 0%nat "Ks"
                       (MagFloat (-10)) 10 10).
  { unfold w'. now rewrite get_snr_spec
      by (apply sound_initial_world || apply Ks_supported). }
  assert (Hl' : limit_of w' = 120000 * 10).
  { rewrite Hw', limit_of_world_after_snr, limit_of_initial_world.
    unfold limit_after. rewrite bright_flux_saturates by lra. reflexivity. }
  assert (Hs' : sound bright_flux w').
  { rewrite Hw'. apply sound_world_after_snr;
      [apply sound_initial_world|apply Ks_supported]. }
  split; [reflexivity|]. split.
  { rewrite Hw'. cbn [klass world_after_snr class_of saturation_limit].
    rewrite limit_of_initial_world. unfold limit_after.
    rewrite bright_flux_saturates by lra. reflexivity. }
  split.
  { intros E. apply (f_equal value) in E. fold (limit_of w') in E.
    fold (limit_of initial_world) in E.
    rewrite Hl', limit_of_initial_world in E. lra. }
  split.
  - rewrite get_snr_spec by (apply sound_initial_world || apply Ks_supported).
    cbn [fst]. rewrite limit_of_initial_world.
    unfold signal_to_noise, accumulated_signal, total_noise, clamped_signal.
    rewrite bright_flux_saturates by lra. reflexivity.
  - rewrite get_snr_spec by (assumption || apply Ks_supported).
    cbn [fst]. rewrite Hl'.
    unfold signal_to_noise, accumulated_signal, total_noise, clamped_signal.
    rewrite bright_flux_saturates by lra. reflexivity.
Qed.

(** C3 fails after a saturated call.  The class declares a saturation
    limit of 120000 e-/pixel, and on a fresh calculator the signal of one
    ten second exposure of a saturating target in band Ks is clamped to
    it.  After an earlier call of [get_snr] for ten exposures of the same
    target, the same question is answered from a signal of 1200000
    e-/pixel for the one exposure, ten times the declared limit: no
    signal of at most 120000 e-/pixel for one exposure gives the ratio
    that is returned. *)
Theorem get_snr_clamp_exceeds_declared_limit :
  let asked := get_snr bright_flux 0%nat "Ks" (MagFloat (-10)) (mkQ 10 s) 1 in
  let w' := snd (get_snr bright_flux 0%nat "Ks" (MagFloat (-10)) (mkQ 10 s)
                         10 initial_world) in
  let ratio (per_exposure : R) :=
    per_exposure * 1
    / (5 * 1 + 1 / 100 * (10 * 1) + sqrt (per_exposure * 1)) in
  value (saturation_limit ETC) = 120000
  /\ photon_rate bright_flux "Ks" (MagFloat (-10)) * 10 * (8 / 10) > 120000
  /\ fst (asked initial_world) = Ok (ratio 120000)
  /\ fst (asked w') = Ok (ratio 1200000)
  /\ forall per_exposure,
       0 <= per_exposure <= value (saturation_limit ETC) ->
       fst (asked w') <> Ok (ratio per_exposure).
Proof.
  intros asked w' ratio.
  assert (Hs : sound bright_flux initial_world) by apply sound_initial_world.
  pose proof Ks_supported as Hb.
  assert (Hw' : w' = world_after_snr bright_flux initial_world 0%nat "Ks"
                       (MagFloat (-10)) 10 10).
  { unfold w'. now rewrite get_snr_spec. }
  assert (Hl' : limit_of w' = 1200000).
  { rewrite Hw', limit_of_world_after_snr, limit_of_initial_world.
    unfold limit_after. rewrite bright_flux_saturates by lra.
    change (IZR 10) with 10. lra. }
  assert (Hs' : sound bright_flux w').
  { rewrite Hw'. now apply sound_world_after_snr. }
  assert (Hlater : fst (asked w') = Ok (ratio 1200000)).
  { unfold asked. rewrite get_snr_spec by assumption. cbn [fst]. rewrite Hl'.
    unfold signal_to_noise, accumulated_signal, total_noise, clamped_signal.
    rewrite bright_flux_saturates by lra. reflexivity. }
  split; [reflexivity|]. split.
  { pose proof (bright_flux_saturates "Ks"%string (MagFloat (-10)) 120000
                  ltac:(lra)) as H.
    apply Rgtb_true in H. exact H. }
  split.
  { unfold asked. rewrite get_snr_spec by assumption. cbn [fst].
    rewrite limit_of_initial_world.
    unfold signal_to_noise, accumulated_signal, total_noise, clamped_signal.
    rewrite bright_flux_saturates by lra. reflexivity. }
  split; [exact Hlater|].
  intros p [Hp0 Hp1] E. rewrite Hlater in E.
  assert (E' : ratio 1200000 = ratio p) by congruence.
  change (value (saturation_limit ETC)) with 120000 in Hp1.
  unfold ratio in E'. rewrite !Rmult_1_r in E'.
  replace (5 + 1 / 100 * 10) with (51 / 10) in E' by lra.
  pose proof sqrt_1200000_upper as Hhi.
  pose proof (sqrt_pos 1200000) as Hpos.
  pose proof (sqrt_pos p) as Ht.
  pose proof (sqrt_sqrt p Hp0) as Htt.
  set (t := sqrt p) in *.
  assert (Ht' : t < 347) by nra.
  assert (Hfresh : p / (51 / 10 + t) < 400).
  { set (noise1 := 51 / 10 + t).
    assert (H1 : 0 < noise1) by (unfold noise1; lra).
    assert (Eq : p / noise1 * noise1 = p) by (field; lra).
    apply (Rmult_lt_reg_r noise1); [assumption|].
    rewrite Eq. unfold noise1. nra. }
  assert (Hafter : 400 < 1200000 / (51 / 10 + sqrt 1200000)).
  { set (noise2 := 51 / 10 + sqrt 1200000).
    assert (H2 : 0 < noise2) by (unfold noise2; lra).
    assert (Eq : 1200000 / noise2 * noise2 = 1200000) by (field; lra).
    apply (Rmult_lt_reg_r noise2); [assumption|].
    rewrite Eq. unfold noise2. lra. }
  lra.
Qed.

(** ** Further properties of the methods *)

Section More.

Variable flux : string -> Mag -> string -> string -> R.

(** *** Numbers *)

Lemma ceiling_unique (x : R) (z : Z) :
  IZR z - 1 < x <= IZR z -> ceiling x = z.
Proof.
  intros [Hlo Hhi].
  pose proof (ceiling_ge x) as Hge. pose proof (ceiling_lt x) as Hlt.
  assert (H1 : (ceiling x < z + 1)%Z) by (apply lt_IZR; rewrite plus_IZR; lra).
  assert (H2 : (z < ceiling x + 1)%Z) by (apply lt_IZR; rewrite plus_IZR; lra).
  lia.
Qed.

(** The ratio grows with the signal of one exposure. *)
Lemma ratio_mono_signal (c c' d : R) (ndit : Z) :
  0 <= c -> c <= c' -> 0 < d -> (1 <= ndit)%Z ->
  c * IZR ndit / total_noise d ndit (c * IZR ndit)
  <= c' * IZR ndit / total_noise d ndit (c' * IZR ndit).
Proof.
  intros Hc Hcc Hd Hn.
  apply Rdiv_le_cross; try (apply total_noise_pos; assumption).
  unfold total_noise. apply IZR_le in Hn. set (x := IZR ndit) in *.
  assert (Ha : 0 <= c * x) by nra.
  assert (Hb : 0 <= c' * x) by nra.
  assert (Hab : c * x <= c' * x) by nra.
  pose proof (sqrt_pos (c * x)) as Hp.
  pose proof (sqrt_pos (c' * x)) as Hq.
  pose proof (sqrt_sqrt (c * x) Ha) as Hpp.
  pose proof (sqrt_sqrt (c' * x) Hb) as Hqq.
  pose proof (sqrt_le_1 (c * x) (c' * x) Ha Hb Hab) as Hpq.
  set (p := sqrt (c * x)) in *. set (q := sqrt (c' * x)) in *.
  assert (c * x * q <= c' * x * p).
  { rewrite <- Hpp, <- Hqq. assert (0 <= p * q) by nra. nra. }
  set (A := 5 * x + 1 / 100 * (d * x)).
  assert (HA : 0 <= A) by (unfold A; nra).
  assert (c * x * A <= c' * x * A) by (apply Rmult_le_compat_r; assumption).
  lra.
Qed.

Lemma clamped_signal_mono_rate (limit rate rate' d : R) :
  0 < d -> rate <= rate' ->
  clamped_signal limit rate d <= clamped_signal limit rate' d.
Proof.
  intros Hd H. unfold clamped_signal, signal_per_exposure.
  assert (rate * d * (8 / 10) <= rate' * d * (8 / 10)) by nra.
  destruct (Rgtb (rate * d * (8 / 10)) limit) eqn:E;
    destruct (Rgtb (rate' * d * (8 / 10)) limit) eqn:E';
    try apply Rgtb_true in E; try apply Rgtb_true in E';
    try apply Rgtb_false in E; try apply Rgtb_false in E'; lra.
Qed.

Lemma signal_to_noise_mono_rate (limit rate rate' d : R) (ndit : Z) :
  0 < limit -> 0 <= rate -> rate <= rate' -> 0 < d -> (1 <= ndit)%Z ->
  signal_to_noise limit rate d ndit <= signal_to_noise limit rate' d ndit.
Proof.
  intros Hl Hr Hrr Hd Hn. unfold signal_to_noise, accumulated_signal.
  apply ratio_mono_signal; try assumption.
  - now apply clamped_signal_nonneg.
  - now apply clamped_signal_mono_rate.
Qed.

(** The two ceilings of the ratio: the photon noise alone, and the
    readout and dark noise of one exposure. *)
Lemma signal_to_noise_ceilings (limit rate d : R) (ndit : Z) :
  0 < limit -> 0 <= rate -> 0 < d -> (1 <= ndit)%Z ->
  signal_to_noise limit rate d ndit
  <= sqrt (accumulated_signal limit rate d ndit)
  /\ signal_to_noise limit rate d ndit * (5 + 1 / 100 * d)
     <= clamped_signal limit rate d.
Proof.
  intros Hl Hr Hd Hn.
  pose proof (clamped_signal_nonneg limit rate d Hl Hr Hd) as Hc.
  unfold signal_to_noise, accumulated_signal.
  set (c := clamped_signal limit rate d) in *.
  pose proof (total_noise_pos d ndit (c * IZR ndit) Hd Hn) as Hpos.
  unfold total_noise in *. apply IZR_le in Hn. set (x := IZR ndit) in *.
  assert (Ha : 0 <= c * x) by nra.
  pose proof (sqrt_pos (c * x)) as Hp.
  pose proof (sqrt_sqrt (c * x) Ha) as Hpp.
  set (p := sqrt (c * x)) in *.
  set (N := 5 * x + 1 / 100 * (d * x) + p) in *.
  assert (E : c * x / N * N = c * x) by (field; lra).
  assert (HA : 0 <= 5 * x + 1 / 100 * (d * x)) by nra.
  assert (HpA : 0 <= p * (5 * x + 1 / 100 * (d * x)))
    by (apply Rmult_le_pos; assumption).
  split.
  - apply (Rmult_le_reg_r N); [assumption|]. rewrite E.
    rewrite <- Hpp. unfold N. lra.
  - apply (Rmult_le_reg_r (N * x)); [nra|].
    replace (c * x / N * (5 + 1 / 100 * d) * (N * x))
      with (c * x / N * N * ((5 + 1 / 100 * d) * x)) by ring.
    rewrite E. unfold N.
    assert (0 <= c * x * p) by (apply Rmult_le_pos; assumption).
    nra.
Qed.

Lemma signal_to_noise_below_ceiling (limit rate d : R) (ndit : Z) :
  0 < limit -> 0 < rate -> 0 < d -> (1 <= ndit)%Z ->
  signal_to_noise limit rate d ndit * (5 + 1 / 100 * d)
  < clamped_signal limit rate d.
Proof.
  intros Hl Hr Hd Hn.
  pose proof (clamped_signal_pos limit rate d Hl Hr Hd) as Hc.
  unfold signal_to_noise, accumulated_signal.
  set (c := clamped_signal limit rate d) in *.
  pose proof (total_noise_pos d ndit (c * IZR ndit) Hd Hn) as Hpos.
  unfold total_noise in *. apply IZR_le in Hn. set (x := IZR ndit) in *.
  assert (Ha : 0 < c * x) by nra.
  pose proof (sqrt_lt_R0 (c * x) Ha) as Hp.
  set (p := sqrt (c * x)) in *.
  set (N := 5 * x + 1 / 100 * (d * x) + p) in *.
  assert (E : c * x / N * N = c * x) by (field; lra).
  apply (Rmult_lt_reg_r (N * x)); [nra|].
  replace (c * x / N * (5 + 1 / 100 * d) * (N * x))
    with (c * x / N * N * ((5 + 1 / 100 * d) * x)) by ring.
  rewrite E. unfold N.
  assert (0 < c * x * p) by (apply Rmult_lt_0_compat; assumption).
  nra.
Qed.

(** *** [get_snr] *)

(** X1.  When [get_snr] raises, the world is as it was before the call:
    nothing is memoised, printed or written.  In a sound world it raises
    exactly when the integration time is not a time or the band is not
    supported; the unit is checked first and gives [UnitsError], the band
    gives the [ValueError] of [photons_in_filter]. *)
Theorem get_snr_errors_are_atomic (self : instance) band mag
    (dit : Quantity) (ndit : Z) w :
  sound flux w ->
  (forall e w', get_snr flux self band mag dit ndit w = (Raise e, w') ->
                w' = w)
  /\ ((exists e, fst (get_snr flux self band mag dit ndit w) = Raise e)
      <-> unit dit <> s \/ ~ In band (bands ETC))
  /\ (unit dit <> s ->
      fst (get_snr flux self band mag dit ndit w) = Raise UnitsError)
  /\ (unit dit = s -> ~ In band (bands ETC) ->
      fst (get_snr flux self band mag dit ndit w)
      = Raise (ValueError
                 [Lit "Unexpected filter name, received "; FmtStr band;
                  Lit " but expected one of "; FmtStrList (bands ETC)])).
Proof.
  intros Hs.
  assert (Hunit : unit dit <> s ->
            get_snr flux self band mag dit ndit w = (Raise UnitsError, w))
    by apply get_snr_bad_unit.
  assert (Hband : unit dit = s -> ~ In band (bands ETC) ->
            get_snr flux self band mag dit ndit w
            = (Raise (ValueError
                        [Lit "Unexpected filter name, received "; FmtStr band;
                         Lit " but expected one of "; FmtStrList (bands ETC)]),
               w)).
  { intros Hu Hb. destruct dit as [d un]. cbn [unit] in Hu. subst un.
    now apply get_snr_invalid_band. }
  destruct (get_snr_cases flux self band mag dit ndit w Hs)
    as [[e He]|(Hin & Hdit & Hok)].
  - split; [intros e' w' H; rewrite He in H; now injection H as _ <-|].
    split; [|split].
    + split; [|intros _; exists e; now rewrite He].
      intros _. destruct (ueqb (unit dit) s) eqn:Eu.
      * apply ueqb_eq in Eu. right. intros Hin.
        destruct dit as [d un]. cbn [unit] in Eu. subst un.
        rewrite get_snr_spec in He by assumption. discriminate He.
      * left. intros E. apply ueqb_eq in E. congruence.
    + intros Hu. now rewrite Hunit.
    + intros Hu Hb. now rewrite Hband.
  - assert (Hu : unit dit = s) by (rewrite Hdit; reflexivity).
    split; [intros e' w' H; rewrite Hok in H; discriminate H|].
    split; [|split].
    + rewrite Hok. cbn [fst]. split; [intros [e [=]]|].
      intros [H|H]; contradiction.
    + intros H. contradiction.
    + intros _ H. contradiction.
Qed.

(** X2.  The lines [get_snr] prints on a supported band: nothing when the
    signal of one exposure is above neither limit, the linearity warning
    when it is above the linearity limit of 100000 e-/pixel, the
    saturation warning when it is above the saturation limit, and the
    linearity warning before the saturation warning when it is above
    both. *)
Theorem get_snr_prints_warnings (self : instance) band mag (d : R)
    (ndit : Z) w :
  sound flux w ->
  In band (bands ETC) ->
  let raw := photon_rate flux band mag * d * (8 / 10) in
  let out := stdout (snd (get_snr flux self band mag (mkQ d s) ndit w)) in
  (raw <= 100000 -> raw <= limit_of w -> out = stdout w)
  /\ (raw > 100000 -> raw <= limit_of w ->
      out = stdout w ++ [WARN_LINEARITY])
  /\ (raw <= 100000 -> raw > limit_of w ->
      out = stdout w ++ [WARN_SATURATION])
  /\ (raw > 100000 -> raw > limit_of w ->
      out = stdout w ++ [WARN_LINEARITY; WARN_SATURATION]).
Proof.
  intros Hs Hb raw out. unfold out.
  rewrite get_snr_spec by assumption. cbn [snd stdout world_after_snr].
  unfold snr_warnings, signal_per_exposure. fold raw.
  repeat split; intros H1 H2;
    try apply Rgtb_true in H1; try apply Rgtb_false in H1;
    try apply Rgtb_true in H2; try apply Rgtb_false in H2;
    rewrite H1, H2; cbn [app]; now rewrite ?app_nil_r.
Qed.

(** X3.  What [get_snr] on a supported band does to the calculator: it
    writes no instance; while the signal of one exposure is not above the
    saturation limit the class object is left as it is; above it, the
    class attribute [saturation_limit] is multiplied by [ndit] and every
    other class attribute is left as it is. *)
Theorem get_snr_effect_on_class (self : instance) band mag (d : R)
    (ndit : Z) w :
  sound flux w ->
  In band (bands ETC) ->
  let raw := photon_rate flux band mag * d * (8 / 10) in
  let w' := snd (get_snr flux self band mag (mkQ d s) ndit w) in
  objects w' = objects w
  /\ (raw <= limit_of w -> klass w' = klass w)
  /\ (raw > limit_of w ->
      klass w'
      = set_saturation_limit
          (klass w) (qscale (saturation_limit (klass w)) (IZR ndit))).
Proof.
  intros Hs Hb raw w'. unfold w'.
  rewrite get_snr_spec by assumption. cbn [snd].
  split; [reflexivity|].
  destruct Hs as [Hc _]. destruct w as [c o t out]. cbn [klass] in Hc.
  apply constants_kept_inv in Hc. destruct Hc as (limit & sg & am & mi & ->).
  unfold world_after_snr, limit_of, limit_after, signal_per_exposure.
  cbn [klass class_of saturation_limit seeing airmass moon_illumination
       of_number value].
  fold raw. split; intros H.
  - apply Rgtb_false in H. now rewrite H.
  - apply Rgtb_true in H. now rewrite H.
Qed.

(** X4.  In one world, for [dit > 0] and [ndit >= 1], a target with a
    higher photon rate never has a lower ratio; once the fainter of two
    targets saturates the detector the two ratios are equal. *)
Theorem get_snr_monotone_in_rate (self : instance) band1 mag1 band2 mag2
    (d : R) (ndit : Z) w :
  sound flux w ->
  0 < limit_of w ->
  In band1 (bands ETC) ->
  In band2 (bands ETC) ->
  0 <= photon_rate flux band1 mag1 ->
  photon_rate flux band1 mag1 <= photon_rate flux band2 mag2 ->
  0 < d ->
  (1 <= ndit)%Z ->
  exists snr1 snr2,
    fst (get_snr flux self band1 mag1 (mkQ d s) ndit w) = Ok snr1
    /\ fst (get_snr flux self band2 mag2 (mkQ d s) ndit w) = Ok snr2
    /\ snr1 <= snr2
    /\ (photon_rate flux band1 mag1 * d * (8 / 10) > limit_of w ->
        snr1 = snr2).
Proof.
  intros Hs Hl Hb1 Hb2 Hr Hrr Hd Hn. rewrite !get_snr_spec by assumption.
  eexists _, _. split; [reflexivity|]. split; [reflexivity|].
  split; [now apply signal_to_noise_mono_rate|].
  intros Hsat. cbn [fst].
  unfold signal_to_noise, accumulated_signal, clamped_signal,
    signal_per_exposure.
  assert (H2 : photon_rate flux band2 mag2 * d * (8 / 10) > limit_of w)
    by nra.
  apply Rgtb_true in Hsat, H2. now rewrite Hsat, H2.
Qed.

(** X5.  For a supported band with a non-negative photon rate, [dit > 0]
    and [ndit >= 1], the ratio [get_snr] returns is at most the square
    root of the accumulated signal, and at most the signal of one
    exposure divided by the readout and dark noise of one exposure,
    [5 + 0.01 * dit]; so whatever the number of exposures it is at most
    [saturation_limit / (5 + 0.01 * dit)]. *)
Theorem get_snr_ceilings (self : instance) band mag (d : R) (ndit : Z) w :
  sound flux w ->
  0 < limit_of w ->
  In band (bands ETC) ->
  0 <= photon_rate flux band mag ->
  0 < d ->
  (1 <= ndit)%Z ->
  exists snr,
    fst (get_snr flux self band mag (mkQ d s) ndit w) = Ok snr
    /\ snr <= sqrt (accumulated_signal (limit_of w)
                                       (photon_rate flux band mag) d ndit)
    /\ snr * (5 + 1 / 100 * d) <= photon_rate flux band mag * d * (8 / 10)
    /\ snr * (5 + 1 / 100 * d) <= limit_of w.
Proof.
  intros Hs Hl Hb Hr Hd Hn. rewrite get_snr_spec by assumption.
  eexists. split; [reflexivity|].
  destruct (signal_to_noise_ceilings (limit_of w) (photon_rate flux band mag)
              d ndit Hl Hr Hd Hn) as [Hsqrt Hceil].
  pose proof (clamped_signal_le_limit (limit_of w)
                (photon_rate flux band mag) d).
  pose proof (clamped_signal_le_raw (limit_of w)
                (photon_rate flux band mag) d) as Hraw.
  unfold signal_per_exposure in Hraw.
  split; [assumption|]. split; lra.
Qed.

(** *** [get_ndit] *)

Lemma snr_warnings_no_time_warning (limit rate d : R) :
  count_occ string_dec (snr_warnings limit rate d) WARN_1_HOUR = 0%nat
  /\ count_occ string_dec (snr_warnings limit rate d) WARN_3_HOURS = 0%nat.
Proof.
  unfold snr_warnings.
  destruct (Rgtb _ 100000); destruct (Rgtb _ limit); split; reflexivity.
Qed.

Lemma set_saturation_limit_twice (c : ETC_class) (x y : Quantity) :
  set_saturation_limit (set_saturation_limit c x) y
  = set_saturation_limit c y.
Proof. reflexivity. Qed.

(** One call of [get_snr], whatever it answers: the world stays sound, no
    instance is written, of the class only [saturation_limit] can change,
    and the output only grows, by lines that are not time warnings. *)
Lemma get_snr_step (self : instance) band mag (d : R) (ndit : Z) w :
  sound flux w ->
  let w' := snd (get_snr flux self band mag (mkQ d s) ndit w) in
  sound flux w'
  /\ objects w' = objects w
  /\ klass w' = set_saturation_limit (klass w) (saturation_limit (klass w'))
  /\ exists out,
       stdout w' = stdout w ++ out
       /\ count_occ string_dec out WARN_1_HOUR = 0%nat
       /\ count_occ string_dec out WARN_3_HOURS = 0%nat.
Proof.
  intros Hs.
  destruct (get_snr_cases flux self band mag (mkQ d s) ndit w Hs)
    as [[e ->]|(Hin & _ & ->)]; cbn [snd value].
  - split; [assumption|]. split; [reflexivity|]. split.
    + destruct Hs as [Hc _]. destruct w as [c o t out]. cbn [klass] in *.
      apply constants_kept_inv in Hc.
      destruct Hc as (limit & sg & am & mi & ->). reflexivity.
    + exists []. rewrite app_nil_r. now repeat split.
  - split; [now apply sound_world_after_snr|]. split; [reflexivity|]. split.
    + destruct Hs as [Hc _]. destruct w as [c o t out]. cbn [klass] in *.
      apply constants_kept_inv in Hc.
      destruct Hc as (limit & sg & am & mi & ->). reflexivity.
    + eexists. split; [reflexivity|]. apply snr_warnings_no_time_warning.
Qed.

Lemma get_ndit_loop_frame (fuel : nat) self band snr mag (d : R) :
  forall is_warning snr_n (ndit : Z) w r w',
    sound flux w ->
    get_ndit_loop flux fuel self band snr mag (mkQ d s) is_warning snr_n
                  ndit w = Some (r, w') ->
    sound flux w'
    /\ objects w' = objects w
    /\ klass w' = set_saturation_limit (klass w) (saturation_limit (klass w'))
    /\ exists out, stdout w' = stdout w ++ out.
Proof.
  assert (Hsame : forall w, sound flux w ->
            sound flux w /\ objects w = objects w
            /\ klass w = set_saturation_limit (klass w)
                           (saturation_limit (klass w))
            /\ exists out, stdout w = stdout w ++ out).
  { intros w Hs. split; [assumption|]. split; [reflexivity|]. split.
    - destruct Hs as [Hc _]. destruct w as [c o t out]. cbn [klass] in *.
      apply constants_kept_inv in Hc.
      destruct Hc as (limit & sg & am & mi & ->). reflexivity.
    - exists []. now rewrite app_nil_r. }
  induction fuel as [|fuel IH]; intros iw snr_n ndit w r w' Hs; simpl.
  - destruct (Rltb snr_n snr); [discriminate|].
    intros [= _ <-]. now apply Hsame.
  - destruct (Rltb snr_n snr); [|intros [= _ <-]; now apply Hsame].
    destruct (get_snr_step self band mag d (ndit + 1) w Hs)
      as (Hs1 & Ho1 & Hk1 & out1 & Hout1 & _).
    destruct (get_snr _ _ _ _ _ _ _) as [[x|e] w1]; cbn [snd] in *.
    + rewrite time_guards_spec.
      set (w2 := set_stdout w1 _).
      assert (Hs2 : sound flux w2) by (destruct Hs1; now split).
      assert (Hout2 : exists out, stdout w2 = stdout w ++ out).
      { eexists. unfold w2. cbn [stdout set_stdout]. rewrite Hout1.
        now rewrite <- app_assoc. }
      destruct (Rgeb (d * IZR (ndit + 1)) (3 * 3600)).
      * intros [= _ <-]. split; [assumption|]. split; [assumption|].
        split; assumption.
      * intros Hrun. apply IH in Hrun; [|assumption].
        destruct Hrun as (Hs' & Ho' & Hk' & out' & Hout').
        split; [assumption|]. split; [rewrite Ho'; exact Ho1|]. split.
        -- rewrite Hk'. change (klass w2) with (klass w1). rewrite Hk1.
           now rewrite set_saturation_limit_twice.
        -- destruct Hout2 as (out2 & Hout2). exists (out2 ++ out').
           now rewrite Hout', Hout2, app_assoc.
    + intros [= _ <-]. split; [assumption|]. split; [assumption|].
      split; [assumption|]. now exists out1.
Qed.

(** The lines one search prints.  [is_warning] is set exactly when the
    exposures counted so far last an hour. *)
Lemma get_ndit_loop_output (self : instance) band snr mag (d : R) :
  In band (bands ETC) ->
  0 < d ->
  forall (fuel : nat) is_warning snr_n (k : Z) w n w',
    sound flux w ->
    d * IZR k < 3 * 3600 ->
    is_warning = Rgeb (d * IZR k) (1 * 3600) ->
    get_ndit_loop flux fuel self band snr mag (mkQ d s) is_warning snr_n
                  k w = Some (Ok n, w') ->
    (k <= n)%Z
    /\ exists out,
         stdout w' = stdout w ++ out
         /\ count_occ string_dec out WARN_1_HOUR
            = (if Rgeb (d * IZR n) (1 * 3600) && negb is_warning
               then 1%nat else 0%nat)
         /\ count_occ string_dec out WARN_3_HOURS
            = (if Rgeb (d * IZR n) (3 * 3600) then 1%nat else 0%nat)
         /\ (Rgeb (d * IZR n) (3 * 3600) = true ->
             exists out', out = out' ++ [WARN_3_HOURS]).
Proof.
  intros Hb Hd.
  induction fuel as [|fuel IH]; intros iw snr_n k w n w' Hs Hk Hiw; simpl.
  - destruct (Rltb snr_n snr); [discriminate|]. intros [= <- <-].
    split; [lia|]. exists []. rewrite app_nil_r.
    assert (E3 : Rgeb (d * IZR k) (3 * 3600) = false)
      by (apply Rgeb_false; lra).
    rewrite E3, Hiw. split; [reflexivity|].
    split; [now destruct (Rgeb (d * IZR k) (1 * 3600))|].
    split; [reflexivity|discriminate].
  - destruct (Rltb snr_n snr).
    2:{ intros [= <- <-]. split; [lia|]. exists []. rewrite app_nil_r.
        assert (E3 : Rgeb (d * IZR k) (3 * 3600) = false)
          by (apply Rgeb_false; lra).
        rewrite E3, Hiw. split; [reflexivity|].
        split; [now destruct (Rgeb (d * IZR k) (1 * 3600))|].
        split; [reflexivity|discriminate]. }
    rewrite get_snr_spec by assumption. rewrite time_guards_spec.
    set (w1 := world_after_snr flux w self band mag d (k + 1)).
    set (w2 := set_stdout w1 _).
    assert (Hs2 : sound flux w2).
    { destruct (sound_world_after_snr flux self band mag d (k + 1) w Hs Hb).
      now split. }
    destruct (snr_warnings_no_time_warning (limit_of w)
                (photon_rate flux band mag) d) as [Hs1 Hs3].
    assert (Hout2 : stdout w2
                    = stdout w ++ (snr_warnings (limit_of w)
                                     (photon_rate flux band mag) d
                                   ++ guards_output d (k + 1) iw)).
    { unfold w2, w1. cbn [stdout set_stdout world_after_snr].
      now rewrite <- app_assoc. }
    assert (Hk1 : d * IZR k < d * IZR (k + 1)) by (rewrite plus_IZR; lra).
    destruct (Rgeb (d * IZR (k + 1)) (3 * 3600)) eqn:E3.
    + intros [= <- <-]. split; [lia|]. eexists. split; [exact Hout2|].
      unfold guards_output. rewrite E3.
      rewrite !count_occ_app, Hs1, Hs3.
      split; [|split].
      * destruct (Rgeb (d * IZR (k + 1)) (1 * 3600) && negb iw); reflexivity.
      * destruct (Rgeb (d * IZR (k + 1)) (1 * 3600) && negb iw); reflexivity.
      * intros _. eexists. rewrite !app_assoc. reflexivity.
    + intros Hrun. apply Rgeb_false in E3.
      apply IH in Hrun; try assumption.
      2:{ subst iw.
          destruct (Rgeb (d * IZR k) (1 * 3600)) eqn:Ek;
            destruct (Rgeb (d * IZR (k + 1)) (1 * 3600)) eqn:Ek1;
            try reflexivity.
          apply Rgeb_true in Ek. apply Rgeb_false in Ek1. lra. }
      destruct Hrun as (Hn & out' & Hout' & H1 & H3 & Hlast).
      split; [lia|]. eexists. split.
      { rewrite Hout', Hout2, <- !app_assoc. reflexivity. }
      assert (Hkn : d * IZR (k + 1) <= d * IZR n)
        by (apply IZR_le in Hn; nra).
      unfold guards_output.
      assert (E3' : Rgeb (d * IZR (k + 1)) (3 * 3600) = false)
        by (apply Rgeb_false; lra).
      rewrite E3', app_nil_r.
      rewrite !count_occ_app, Hs1, Hs3, H1, H3.
      split; [|split].
      * subst iw.
        destruct (Rgeb (d * IZR k) (1 * 3600)) eqn:Ek;
          destruct (Rgeb (d * IZR (k + 1)) (1 * 3600)) eqn:Ek1;
          destruct (Rgeb (d * IZR n) (1 * 3600)) eqn:En;
          try reflexivity;
          try apply Rgeb_true in Ek; try apply Rgeb_false in Ek;
          try apply Rgeb_true in Ek1; try apply Rgeb_false in Ek1;
          try apply Rgeb_true in En; try apply Rgeb_false in En; lra.
      * destruct (Rgeb (d * IZR (k + 1)) (1 * 3600) && negb iw); reflexivity.
      * intros Hcap. destruct (Hlast Hcap) as (o & ->).
        eexists. rewrite !app_assoc. reflexivity.
Qed.

(** The search for a positive target, as the loop runs it. *)
Lemma get_ndit_positive_target (self : instance) band (target : R) mag
    (d : R) w :
  sound flux w ->
  In band (bands ETC) ->
  0 < d ->
  0 < target ->
  exists (n : nat) w',
    (forall fuel, (max_turns d <= fuel)%nat ->
       get_ndit flux fuel self band target mag (mkQ d s) w
       = Some (Ok (Z.of_nat n), w'))
    /\ (1 <= n)%nat
    /\ (search_snr (limit_of w) (photon_rate flux band mag) d n >= target
        \/ d * INR n >= 3 * 3600)
    /\ (forall j, (1 <= j < n)%nat ->
          search_snr (limit_of w) (photon_rate flux band mag) d j < target
          /\ d * INR j < 3 * 3600).
Proof.
  intros Hs Hb Hd Ht.
  destruct (get_ndit_loop_search flux (limit_of w) self band target mag d
              Hb Hd (max_turns d) 0%nat false 0 w)
    as (n & w' & Hrun & Hn & Hpost & Hfirst & _); try assumption.
  - reflexivity.
  - cbn [INR]. lra.
  - cbn [INR]. pose proof (max_turns_enough d Hd). lra.
  - exists n, w'. split; [|split; [lia|split; [assumption|]]].
    + intros fuel Hf. unfold get_ndit. rewrite get_ndit_checks_spec.
      assert (E : Rleb d 0 = false) by (apply Rleb_false; lra).
      rewrite E. now apply (get_ndit_loop_more_fuel flux (max_turns d)).
    + intros j Hj. apply Hfirst. lia.
Qed.

(** X6.  [get_ndit] with an integration time that is not a time raises
    [UnitsError] and leaves the world as it was, whatever the band, the
    target and the sign of the number: the unit is checked before
    "DIT must be positive". *)
Theorem get_ndit_rejects_non_time_dit (fuel : nat) (self : instance) band
    (target : R) mag (dit : Quantity) w :
  unit dit <> s ->
  get_ndit flux fuel self band target mag dit w = Some (Raise UnitsError, w).
Proof.
  intros Hu. unfold get_ndit, get_ndit_checks, bind at 1, quantity_input.
  destruct (ueqb (unit dit) s) eqn:E; [now apply ueqb_eq in E|reflexivity].
Qed.

(** X7.  [get_ndit] on a band that is not supported, with [dit > 0]: for a
    positive target the first turn's [get_snr] raises the [ValueError] of
    [photons_in_filter] and the world is as it was; for a target that is
    not positive the band is never looked at and the result is 0. *)
Theorem get_ndit_unsupported_band (self : instance) band (target : R) mag
    (d : R) w :
  sound flux w ->
  ~ In band (bands ETC) ->
  0 < d ->
  (0 < target ->
   forall fuel,
     get_ndit flux (S fuel) self band target mag (mkQ d s) w
     = Some (Raise (ValueError
                      [Lit "Unexpected filter name, received "; FmtStr band;
                       Lit " but expected one of "; FmtStrList (bands ETC)]),
             w))
  /\ (target <= 0 ->
      forall fuel,
        get_ndit flux fuel self band target mag (mkQ d s) w
        = Some (Ok 0%Z, w)).
Proof.
  intros Hs Hb Hd.
  assert (E : Rleb d 0 = false) by (apply Rleb_false; lra).
  split; intros Ht fuel; unfold get_ndit; rewrite get_ndit_checks_spec, E.
  - cbn [get_ndit_loop].
    assert (E0 : Rltb 0 target = true) by (apply Rltb_true; lra).
    rewrite E0. now rewrite get_snr_invalid_band.
  - apply get_ndit_loop_false. apply Rltb_false. lra.
Qed.

(** X8.  A target the instrument cannot reach.  On a supported band with a
    photon rate whose signal per exposure is not above the saturation
    limit, a positive target of at least
    [photon_rate * dit * 0.8 / (5 + 0.01 * dit)] is reached by no number of
    exposures, so the search stops at the three hour cap: [get_ndit]
    returns exactly [ceil (3 hours / dit)]. *)
Theorem get_ndit_unreachable_target (self : instance) band (target : R) mag
    (d : R) w :
  sound flux w ->
  0 < limit_of w ->
  In band (bands ETC) ->
  0 <= photon_rate flux band mag ->
  0 < d ->
  photon_rate flux band mag * d * (8 / 10) <= limit_of w ->
  0 < target ->
  photon_rate flux band mag * d * (8 / 10) <= target * (5 + 1 / 100 * d) ->
  exists w',
    forall fuel, (max_turns d <= fuel)%nat ->
      get_ndit flux fuel self band target mag (mkQ d s) w
      = Some (Ok (Z.of_nat (max_turns d)), w').
Proof.
  intros Hs Hl Hb Hr Hd Hunsat Ht Hfar.
  destruct (get_ndit_positive_target self band target mag d w Hs Hb Hd Ht)
    as (n & w' & Hrun & Hn & Hpost & Hfirst).
  exists w'. intros fuel Hf. rewrite (Hrun fuel Hf). do 3 f_equal.
  assert (Hbelow : search_snr (limit_of w) (photon_rate flux band mag) d n
                   < target).
  { unfold search_snr. rewrite search_limit_unsaturated by assumption.
    destruct Hr as [Hr|Hr].
    - pose proof (signal_to_noise_below_ceiling (limit_of w)
                    (photon_rate flux band mag) d (Z.of_nat n) Hl Hr Hd)
        as Hc.
      pose proof (clamped_signal_le_raw (limit_of w)
                    (photon_rate flux band mag) d) as Hraw.
      unfold signal_per_exposure in Hraw.
      assert (Hc' : signal_to_noise (limit_of w) (photon_rate flux band mag)
                      d (Z.of_nat n) * (5 + 1 / 100 * d)
                    < target * (5 + 1 / 100 * d)) by (specialize (Hc ltac:(lia)); lra).
      apply (Rmult_lt_reg_r (5 + 1 / 100 * d)); [lra|assumption].
    - pose proof (signal_to_noise_ceilings (limit_of w)
                    (photon_rate flux band mag) d (Z.of_nat n) Hl
                    (or_intror Hr) Hd ltac:(lia)) as [_ Hc].
      pose proof (clamped_signal_le_raw (limit_of w)
                    (photon_rate flux band mag) d) as Hraw.
      unfold signal_per_exposure in Hraw.
      assert (Hzero : photon_rate flux band mag * d * (8 / 10) = 0)
        by (rewrite <- Hr; ring).
      assert (signal_to_noise (limit_of w) (photon_rate flux band mag) d
                (Z.of_nat n) * (5 + 1 / 100 * d) <= 0) by lra.
      assert (0 < 5 + 1 / 100 * d) by lra.
      assert (signal_to_noise (limit_of w) (photon_rate flux band mag) d
                (Z.of_nat n) <= 0) by nra.
      lra. }
  destruct Hpost as [Hpost|Hcap]; [lra|].
  unfold max_turns.
  rewrite (ceiling_unique (3 * 3600 / d) (Z.of_nat n));
    [now rewrite Nat2Z.id|].
  rewrite <- INR_IZR_INZ.
  assert (Hprev : d * (INR n - 1) < 3 * 3600).
  { destruct (Nat.eq_dec n 1) as [->|Hn1]; [cbn [INR]; lra|].
    destruct (Hfirst (n - 1)%nat ltac:(lia)) as [_ H].
    rewrite minus_INR in H by lia. cbn [INR] in H. exact H. }
  split.
  - apply (Rmult_lt_reg_r d); [assumption|].
    replace (3 * 3600 / d * d) with (3 * 3600) by (field; lra). lra.
  - apply (Rmult_le_reg_r d); [assumption|].
    replace (3 * 3600 / d * d) with (3 * 3600) by (field; lra). lra.
Qed.

Lemma get_ndit_more_fuel (fuel fuel' : nat) self band snr mag dit w r :
  get_ndit flux fuel self band snr mag dit w = Some r ->
  (fuel <= fuel')%nat ->
  get_ndit flux fuel' self band snr mag dit w = Some r.
Proof.
  unfold get_ndit. destruct (get_ndit_checks dit w) as [[u|e] w1].
  - apply get_ndit_loop_more_fuel.
  - auto.
Qed.

(** X9.  The time warnings of one call of [get_ndit] on a supported band
    with [dit > 0] that returns the count [n]: the output only grows; the
    one hour warning is printed once if [n * dit] is at least one hour and
    not at all otherwise; the three hour warning is printed once, as the
    last line, if [n * dit] is at least three hours and not at all
    otherwise. *)
Theorem get_ndit_time_warnings (fuel : nat) (self : instance) band
    (target : R) mag (d : R) w (n : Z) w' :
  sound flux w ->
  In band (bands ETC) ->
  0 < d ->
  get_ndit flux fuel self band target mag (mkQ d s) w = Some (Ok n, w') ->
  exists out,
    stdout w' = stdout w ++ out
    /\ (d * IZR n >= 1 * 3600 ->
        count_occ string_dec out WARN_1_HOUR = 1%nat)
    /\ (d * IZR n < 1 * 3600 ->
        count_occ string_dec out WARN_1_HOUR = 0%nat)
    /\ (d * IZR n >= 3 * 3600 ->
        count_occ string_dec out WARN_3_HOURS = 1%nat
        /\ exists out', out = out' ++ [WARN_3_HOURS])
    /\ (d * IZR n < 3 * 3600 ->
        count_occ string_dec out WARN_3_HOURS = 0%nat).
Proof.
  intros Hs Hb Hd. unfold get_ndit. rewrite get_ndit_checks_spec.
  assert (E : Rleb d 0 = false) by (apply Rleb_false; lra).
  rewrite E. intros Hrun.
  apply (get_ndit_loop_output self band target mag d Hb Hd) in Hrun;
    try assumption.
  - destruct Hrun as (_ & out & Hout & H1 & H3 & Hlast).
    exists out. split; [assumption|]. cbn [negb] in H1.
    rewrite andb_true_r in H1.
    split; [|split; [|split]]; intros H.
    + apply Rgeb_true in H. now rewrite H in H1.
    + apply Rgeb_false in H. now rewrite H in H1.
    + apply Rgeb_true in H. rewrite H in H3. split; [assumption|auto].
    + apply Rgeb_false in H. now rewrite H in H3.
  - lra.
  - symmetry. apply Rgeb_false. lra.
Qed.

(** X10.  On a supported band with [dit > 0], from one world, a higher
    target never needs fewer exposures: the count [get_ndit] returns is
    non-decreasing in the target. *)
Theorem get_ndit_monotone_in_target (fuel1 fuel2 : nat) (self : instance)
    band (target1 target2 : R) mag (d : R) w (n1 n2 : Z) w1 w2 :
  sound flux w ->
  In band (bands ETC) ->
  0 < d ->
  target1 <= target2 ->
  get_ndit flux fuel1 self band target1 mag (mkQ d s) w = Some (Ok n1, w1) ->
  get_ndit flux fuel2 self band target2 mag (mkQ d s) w = Some (Ok n2, w2) ->
  (n1 <= n2)%Z.
Proof.
  intros Hs Hb Hd Ht Hrun1 Hrun2.
  assert (Hpos : forall fuel t n w',
            get_ndit flux fuel self band t mag (mkQ d s) w = Some (Ok n, w') ->
            (0 <= n)%Z).
  { intros fuel t n w'. unfold get_ndit. rewrite get_ndit_checks_spec.
    assert (E : Rleb d 0 = false) by (apply Rleb_false; lra).
    rewrite E. intros Hrun.
    apply (get_ndit_loop_output self band t mag d Hb Hd) in Hrun;
      try assumption; [tauto|lra|].
    symmetry. apply Rgeb_false. lra. }
  destruct (Rle_lt_dec target1 0) as [Hneg|Hpos1].
  - assert (n1 = 0%Z).
    { revert Hrun1. unfold get_ndit. rewrite get_ndit_checks_spec.
      assert (E : Rleb d 0 = false) by (apply Rleb_false; lra).
      rewrite E, get_ndit_loop_false by (apply Rltb_false; lra).
      now intros [= <- _]. }
    subst n1. now apply (Hpos fuel2 target2 n2 w2).
  - destruct (get_ndit_positive_target self band target1 mag d w Hs Hb Hd
                Hpos1) as (m1 & v1 & Hcan1 & Hm1 & Hpost1 & Hfirst1).
    destruct (get_ndit_positive_target self band target2 mag d w Hs Hb Hd
                ltac:(lra)) as (m2 & v2 & Hcan2 & Hm2 & Hpost2 & Hfirst2).
    apply (get_ndit_more_fuel fuel1 (Nat.max fuel1 (max_turns d))) in Hrun1;
      [|lia].
    apply (get_ndit_more_fuel fuel2 (Nat.max fuel2 (max_turns d))) in Hrun2;
      [|lia].
    rewrite Hcan1 in Hrun1 by lia. rewrite Hcan2 in Hrun2 by lia.
    injection Hrun1 as <- _. injection Hrun2 as <- _.
    apply inj_le. destruct (Nat.le_gt_cases m1 m2) as [|Hlt]; [assumption|].
    destruct (Hfirst1 m2 ltac:(lia)) as [Hs1 Hc1].
    destruct Hpost2 as [H|H]; lra.
Qed.

(** X11.  Whatever it answers, a call of [get_ndit] leaves the world
    sound, writes no instance, changes no class attribute other than
    [saturation_limit], and only adds lines to the output. *)
Theorem get_ndit_frame (fuel : nat) (self : instance) band (target : R) mag
    (dit : Quantity) w r w' :
  sound flux w ->
  get_ndit flux fuel self band target mag dit w = Some (r, w') ->
  sound flux w'
  /\ objects w' = objects w
  /\ klass w' = set_saturation_limit (klass w) (saturation_limit (klass w'))
  /\ exists out, stdout w' = stdout w ++ out.
Proof.
  intros Hs.
  assert (Hsame : sound flux w /\ objects w = objects w
            /\ klass w = set_saturation_limit (klass w)
                           (saturation_limit (klass w))
            /\ exists out, stdout w = stdout w ++ out).
  { split; [assumption|]. split; [reflexivity|]. split.
    - destruct Hs as [Hc _]. destruct w as [c o t out]. cbn [klass] in *.
      apply constants_kept_inv in Hc.
      destruct Hc as (limit & sg & am & mi & ->). reflexivity.
    - exists []. now rewrite app_nil_r. }
  destruct (ueqb (unit dit) s) eqn:Eu.
  - apply ueqb_eq in Eu. destruct dit as [d un]. cbn [unit] in Eu. subst un.
    unfold get_ndit. rewrite get_ndit_checks_spec.
    destruct (Rleb d 0); [intros [= _ <-]; exact Hsame|].
    now apply get_ndit_loop_frame.
  - unfold get_ndit, get_ndit_checks, bind at 1, quantity_input.
    rewrite Eu. unfold raise. intros [= _ <-]. exact Hsame.
Qed.

(** *** [initialize_observing_conditions] *)

Lemma initialize_ok (self : instance) (sg : Quantity) (mi am : R) w :
  unit sg = arcsec ->
  0 <= mi <= 1 ->
  exists w',
    initialize_observing_conditions self sg mi am w = (Ok tt, w')
    /\ klass w' = klass w
    /\ memo w' = memo w
    /\ stdout w' = stdout w
    /\ forall i, objects w' i
                 = if Nat.eqb i self then mkDict (Some sg) (Some am) (Some mi)
                   else objects w i.
Proof.
  intros Hu [H0 H1]. apply Rleb_true in H0, H1.
  unfold initialize_observing_conditions, bind, quantity_input.
  rewrite Hu, ueqb_refl. unfold ret at 1. rewrite H0, H1.
  cbn [andb negb]. unfold setattr.
  eexists. split; [reflexivity|].
  cbn [klass memo stdout objects set_objects].
  repeat (split; [reflexivity|]).
  intros i. destruct (Nat.eqb i self); reflexivity.
Qed.

Lemma initialize_bad_moon (self : instance) (sg : Quantity) (mi am : R) w :
  unit sg = arcsec ->
  ~ (0 <= mi <= 1) ->
  initialize_observing_conditions self sg mi am w
  = (Raise (ValueError
              [Lit "moon_illumination must be between 0 and 1, but got ";
               FmtFloat mi]), w).
Proof.
  intros Hu Hmi. unfold initialize_observing_conditions, bind, quantity_input.
  rewrite Hu, ueqb_refl. unfold ret at 1.
  destruct (Rleb 0 mi) eqn:E0; destruct (Rleb mi 1) eqn:E1; try reflexivity.
  apply Rleb_true in E0, E1. tauto.
Qed.

(** X12.  [initialize_observing_conditions] with a seeing that is not an
    angle raises [UnitsError] and writes nothing, whatever the moon
    illumination: the unit is checked before the range. *)
Theorem initialize_rejects_non_angle_seeing (self : instance)
    (sg : Quantity) (mi am : R) w :
  unit sg <> arcsec ->
  initialize_observing_conditions self sg mi am w = (Raise UnitsError, w).
Proof.
  intros Hu. unfold initialize_observing_conditions, bind at 1,
    quantity_input.
  destruct (ueqb (unit sg) arcsec) eqn:E; [now apply ueqb_eq in E|].
  reflexivity.
Qed.

(** X13.  Two calls of [initialize_observing_conditions] on one instance:
    after two accepted calls the instance reads the values of the second;
    a second call that is refused for its moon illumination leaves the
    values of the first. *)
Theorem initialize_last_write_wins (self : instance) (sg1 sg2 : Quantity)
    (mi1 am1 mi2 am2 : R) w :
  unit sg1 = arcsec ->
  unit sg2 = arcsec ->
  0 <= mi1 <= 1 ->
  let w1 := snd (initialize_observing_conditions self sg1 mi1 am1 w) in
  let second := initialize_observing_conditions self sg2 mi2 am2 w1 in
  (0 <= mi2 <= 1 ->
   fst second = Ok tt
   /\ getattr_seeing (snd second) self = sg2
   /\ getattr_moon_illumination (snd second) self = mi2
   /\ getattr_airmass (snd second) self = am2)
  /\ (~ (0 <= mi2 <= 1) ->
      (exists e, fst second = Raise e)
      /\ getattr_seeing (snd second) self = sg1
      /\ getattr_moon_illumination (snd second) self = mi1
      /\ getattr_airmass (snd second) self = am1).
Proof.
  intros Hu1 Hu2 Hmi1 w1 second.
  destruct (initialize_ok self sg1 mi1 am1 w Hu1 Hmi1)
    as (v1 & Hrun1 & _ & _ & _ & Hobj1).
  assert (Hw1 : w1 = v1) by (unfold w1; now rewrite Hrun1).
  split; intros Hmi2; unfold second; rewrite Hw1.
  - destruct (initialize_ok self sg2 mi2 am2 v1 Hu2 Hmi2)
      as (v2 & Hrun2 & _ & _ & _ & Hobj2).
    rewrite Hrun2. cbn [fst snd]. split; [reflexivity|].
    unfold getattr_seeing, getattr_moon_illumination, getattr_airmass.
    rewrite Hobj2, Nat.eqb_refl. now repeat split.
  - rewrite initialize_bad_moon by assumption. cbn [fst snd].
    split; [now eexists|].
    unfold getattr_seeing, getattr_moon_illumination, getattr_airmass.
    rewrite Hobj1, Nat.eqb_refl. now repeat split.
Qed.

(** X14.  Instances keep their own observing conditions: after one
    instance and then another are initialised, each reads the values it
    was given, and an instance that was never initialised still reads the
    defaults of the class. *)
Theorem initialize_instances_independent (self other third : instance)
    (sg1 sg2 : Quantity) (mi1 am1 mi2 am2 : R) w :
  unit sg1 = arcsec ->
  unit sg2 = arcsec ->
  0 <= mi1 <= 1 ->
  0 <= mi2 <= 1 ->
  other <> self ->
  let w2 :=
    snd (initialize_observing_conditions other sg2 mi2 am2
           (snd (initialize_observing_conditions self sg1 mi1 am1 w))) in
  (getattr_seeing w2 self = sg1
   /\ getattr_moon_illumination w2 self = mi1
   /\ getattr_airmass w2 self = am1)
  /\ (getattr_seeing w2 other = sg2
      /\ getattr_moon_illumination w2 other = mi2
      /\ getattr_airmass w2 other = am2)
  /\ (third <> self -> third <> other ->
      objects w third = empty_dict ->
      getattr_seeing w2 third = seeing (klass w)
      /\ getattr_moon_illumination w2 third = moon_illumination (klass w)
      /\ getattr_airmass w2 third = airmass (klass w)).
Proof.
  intros Hu1 Hu2 Hmi1 Hmi2 Hneq w2.
  destruct (initialize_ok self sg1 mi1 am1 w Hu1 Hmi1)
    as (v1 & Hrun1 & Hk1 & _ & _ & Hobj1).
  destruct (initialize_ok other sg2 mi2 am2 v1 Hu2 Hmi2)
    as (v2 & Hrun2 & Hk2 & _ & _ & Hobj2).
  assert (Hw2 : w2 = v2)
    by (unfold w2; rewrite Hrun1; cbn [snd]; now rewrite Hrun2).
  rewrite Hw2.
  unfold getattr_seeing, getattr_moon_illumination, getattr_airmass.
  split; [|split].
  - rewrite Hobj2. apply Nat.eqb_neq in Hneq. rewrite Nat.eqb_sym, Hneq.
    rewrite Hobj1, Nat.eqb_refl. now repeat split.
  - rewrite Hobj2, Nat.eqb_refl. now repeat split.
  - intros H1 H2 Hempty. rewrite Hobj2.
    apply Nat.eqb_neq in H1, H2. rewrite H2, Hobj1, H1, Hempty.
    cbn [empty_dict self_seeing self_airmass self_moon_illumination].
    rewrite Hk2, Hk1. now repeat split.
Qed.

(** *** [photons_in_filter] and its memo table *)

Lemma photons_in_filter_body_world (k : Key) w r w' :
  photons_in_filter_body flux k w = (r, w') -> w' = w.
Proof.
  destruct k as [[self band] mag].
  unfold photons_in_filter_body, bind, attr.
  destruct (in_dec string_dec band (bands (klass w)));
    unfold ret, raise; now intros [= _ <-].
Qed.

Lemma memo_remove_absent (k : Key) (t : list (Key * Quantity)) :
  memo_find k t = None -> memo_remove k t = t.
Proof.
  induction t as [|[k' v'] t IH]; simpl; [reflexivity|].
  destruct (Key_eq_dec k k'); [discriminate|].
  intros H. now rewrite IH.
Qed.

Lemma memo_find_remove (k : Key) (t : list (Key * Quantity)) :
  memo_find k (memo_remove k t) = None.
Proof.
  induction t as [|[k' v'] t IH]; simpl; [reflexivity|].
  destruct (Key_eq_dec k k') as [|Hne]; [assumption|].
  simpl. destruct (Key_eq_dec k k'); [contradiction|assumption].
Qed.

Lemma memo_find_firstn_absent (k : Key) (n : nat)
    (t : list (Key * Quantity)) :
  memo_find k t = None -> memo_find k (firstn n t) = None.
Proof.
  revert t. induction n as [|n IH]; intros [|[k' v'] t]; simpl;
    try reflexivity.
  destruct (Key_eq_dec k k'); [discriminate|]. apply IH.
Qed.

Lemma memo_remove_shorter (k : Key) (t : list (Key * Quantity)) v :
  memo_find k t = Some v ->
  (S (List.length (memo_remove k t)) <= List.length t)%nat.
Proof.
  induction t as [|[k' v'] t IH]; simpl; [discriminate|].
  destruct (Key_eq_dec k k').
  - intros _. clear IH. apply le_n_S.
    induction t as [|[k2 v2] t IHt]; simpl; [lia|].
    destruct (Key_eq_dec k k2); simpl; lia.
  - intros H. simpl. apply le_n_S. now apply IH.
Qed.

(** X15.  Memoisation of [photons_in_filter], in any world: after a call
    that returned, the entry of its arguments is in the table with the
    value returned, and the same call made again returns the same value
    and leaves the world exactly as the first call left it. *)
Theorem photons_in_filter_repeat (self : instance) band mag w v w1 :
  photons_in_filter flux self band mag w = (Ok v, w1) ->
  memo_find (self, band, mag) (memo w1) = Some v
  /\ photons_in_filter flux self band mag w1 = (Ok v, w1).
Proof.
  assert (Hhead : forall (k : Key) x t, memo_find k ((k, x) :: t) = Some x).
  { intros k x t. cbn [memo_find].
    destruct (Key_eq_dec k k); [reflexivity|contradiction]. }
  assert (Hdrop : forall (k : Key) x t,
            memo_find k t = None -> memo_remove k ((k, x) :: t) = t).
  { intros k x t H. cbn [memo_remove].
    destruct (Key_eq_dec k k); [|contradiction].
    now apply memo_remove_absent. }
  unfold photons_in_filter, lru_cache.
  destruct (memo_find (self, band, mag) (memo w)) as [v0|] eqn:E.
  - intros H. apply pair_equal_spec in H. destruct H as [Hv <-].
    injection Hv as <-. cbn [memo set_memo]. rewrite Hhead.
    split; [reflexivity|]. unfold set_memo.
    cbn [klass objects memo stdout].
    now rewrite Hdrop by apply memo_find_remove.
  - destruct (photons_in_filter_body flux (self, band, mag) w)
      as [[v0|e] w0] eqn:Eb; [|discriminate].
    apply photons_in_filter_body_world in Eb. subst w0.
    intros H. apply pair_equal_spec in H. destruct H as [Hv <-].
    injection Hv as <-. cbn [memo set_memo]. rewrite Hhead.
    split; [reflexivity|]. unfold set_memo.
    cbn [klass objects memo stdout].
    now rewrite Hdrop by now apply memo_find_firstn_absent.
Qed.

(** X16.  The memo table of [photons_in_filter] is bounded: a table of at
    most 128 entries has at most 128 entries after a call, whatever the
    call answers, and a call that raises leaves the table as it was. *)
Theorem photons_in_filter_memo_bounded (self : instance) band mag w :
  (List.length (memo w) <= maxsize)%nat ->
  (List.length (memo (snd (photons_in_filter flux self band mag w)))
   <= maxsize)%nat
  /\ (forall e w', photons_in_filter flux self band mag w = (Raise e, w') ->
                   memo w' = memo w).
Proof.
  intros Hlen. unfold photons_in_filter, lru_cache.
  destruct (memo_find (self, band, mag) (memo w)) as [v0|] eqn:E.
  - split; [|discriminate]. cbn [snd memo set_memo List.length].
    apply memo_remove_shorter in E. lia.
  - destruct (photons_in_filter_body flux (self, band, mag) w)
      as [[v0|e] w0] eqn:Eb;
      apply photons_in_filter_body_world in Eb; subst w0.
    + split; [|discriminate]. cbn [snd memo set_memo List.length].
      rewrite length_firstn. unfold maxsize in *. lia.
    + split; [assumption|]. now intros e' w' [= _ <-].
Qed.

(** *** The tests *)

Lemma photon_rate_sign (band : string) (mag : Mag) :
  (0 < flux band mag "HAWKI"%string "Paranal"%string ->
   0 < photon_rate flux band mag)
  /\ (flux band mag "HAWKI"%string "Paranal"%string <= 0 ->
      photon_rate flux band mag <= 0).
Proof.
  unfold photon_rate. pose proof PI_RGT_0.
  assert (0 < (8 / 2) ^ 2 * PI * (1063 / 10000) ^ 2) by nra.
  split; intros; nra.
Qed.

(** X17.  [test_photons] on a supported band passes exactly when the flux
    the photometric service returns is positive, and fails on its last
    assertion otherwise; on a band that is not supported the [ValueError]
    of [photons_in_filter] escapes. *)
Theorem test_photons_outcome (self : instance) band mag w :
  sound flux w ->
  (In band (bands ETC) ->
   0 < flux band mag "HAWKI"%string "Paranal"%string ->
   fst (test_photons flux self band mag w) = Passed)
  /\ (In band (bands ETC) ->
      flux band mag "HAWKI"%string "Paranal"%string <= 0 ->
      fst (test_photons flux self band mag w) = AssertionFailed)
  /\ (~ In band (bands ETC) ->
      fst (test_photons flux self band mag w)
      = Errored (ValueError
                   [Lit "Unexpected filter name, received "; FmtStr band;
                    Lit " but expected one of "; FmtStrList (bands ETC)])).
Proof.
  intros Hs. unfold test_photons.
  split; [|split].
  - intros Hb Hpos. rewrite photons_in_filter_valid by assumption.
    unfold qgt, qcompare. cbn [photons_of unit value of_number].
    change (ueqb photon_unit (udiv (udiv ph pixel) s)) with true.
    cbv iota.
    apply (proj1 (photon_rate_sign band mag)) in Hpos.
    apply Rgtb_true in Hpos. now rewrite Hpos.
  - intros Hb Hneg. rewrite photons_in_filter_valid by assumption.
    unfold qgt, qcompare. cbn [photons_of unit value of_number].
    change (ueqb photon_unit (udiv (udiv ph pixel) s)) with true.
    cbv iota.
    apply (proj2 (photon_rate_sign band mag)) in Hneg.
    apply Rgtb_false in Hneg. now rewrite Hneg.
  - intros Hb. now rewrite photons_in_filter_invalid.
Qed.

(** X18.  [test_photons_band_error] with the expected class [ValueError]
    passes exactly on the bands that are not supported; on a supported
    band its [assert False] fails, because an [AssertionError] is not a
    [ValueError]. *)
Theorem test_photons_band_error_outcome (self : instance) band mag w :
  sound flux w ->
  (~ In band (bands ETC) ->
   fst (test_photons_band_error flux self (band, ValueError_class) mag w)
   = Passed)
  /\ (In band (bands ETC) ->
      fst (test_photons_band_error flux self (band, ValueError_class) mag w)
      = AssertionFailed).
Proof.
  intros Hs. unfold test_photons_band_error. split; intros Hb.
  - now rewrite photons_in_filter_invalid.
  - now rewrite photons_in_filter_valid.
Qed.

(** X19.  [test_snr] with fixtures in their domains (a seeing that is an
    angle, a moon illumination in [0, 1], a supported band, [dit > 0],
    [ndit >= 1]) passes when the photon rate is positive and fails on its
    last assertion when the photon rate is zero; it leaves the world
    sound and the saturation limit positive, so that the next test starts
    under the same conditions. *)
Theorem test_snr_outcome (self : instance) band mag (d : R) (ndit : Z)
    (sg : Quantity) (mi am : R) w :
  sound flux w ->
  0 < limit_of w ->
  unit sg = arcsec ->
  0 <= mi <= 1 ->
  In band (bands ETC) ->
  0 < d ->
  (1 <= ndit)%Z ->
  let run := test_snr flux self band mag (mkQ d s) ndit sg mi am w in
  (0 < photon_rate flux band mag -> fst run = Passed)
  /\ (photon_rate flux band mag = 0 -> fst run = AssertionFailed)
  /\ sound flux (snd run)
  /\ 0 < limit_of (snd run).
Proof.
  intros Hs Hl Hu Hmi Hb Hd Hn run. unfold run, test_snr.
  destruct (initialize_ok self sg mi am w Hu Hmi)
    as (w1 & -> & Hk1 & Hm1 & _ & _).
  assert (Hs1 : sound flux w1).
  { destruct Hs as [Hc Ht]. split; [now rewrite Hk1|now rewrite Hm1]. }
  assert (Hl1 : 0 < limit_of w1) by (unfold limit_of; now rewrite Hk1).
  rewrite get_snr_spec by assumption.
  assert (Hpost : sound flux (world_after_snr flux w1 self band mag d ndit)
                  /\ 0 < limit_of (world_after_snr flux w1 self band mag d
                                                   ndit)).
  { split; [now apply sound_world_after_snr|].
    rewrite limit_of_world_after_snr. now apply limit_after_pos. }
  split; [|split].
  - intros Hr.
    assert (Hpos : 0 < signal_to_noise (limit_of w1)
                         (photon_rate flux band mag) d ndit).
    { apply signal_to_noise_pos; try assumption.
      unfold accumulated_signal. apply IZR_le in Hn.
      pose proof (clamped_signal_pos (limit_of w1) _ d Hl1 Hr Hd). nra. }
    apply Rgtb_true in Hpos. now rewrite Hpos.
  - intros Hr.
    assert (Hzero : signal_to_noise (limit_of w1)
                      (photon_rate flux band mag) d ndit = 0).
    { unfold signal_to_noise, accumulated_signal, clamped_signal,
        signal_per_exposure. rewrite Hr.
      replace (0 * d * (8 / 10)) with 0 by ring.
      assert (E : Rgtb 0 (limit_of w1) = false) by (apply Rgtb_false; lra).
      rewrite E. unfold Rdiv. ring. }
    rewrite Hzero.
    assert (E : Rgtb 0 0 = false) by (apply Rgtb_false; lra).
    now rewrite E.
  - destruct (Rgtb _ 0); apply Hpost.
Qed.

(** X20.  [test_ndit] with fixtures in their domains and enough fuel ends;
    it passes exactly when the target is positive, whatever the
    photometric service returns: the three hour cap makes [get_ndit]
    return a positive count also when the target is out of reach.  For a
    target that is not positive it fails on [assert ndit > 0]. *)
Theorem test_ndit_outcome (fuel : nat) (self : instance) band mag (d : R)
    (target : R) (sg : Quantity) (mi am : R) w :
  sound flux w ->
  unit sg = arcsec ->
  0 <= mi <= 1 ->
  In band (bands ETC) ->
  0 < d ->
  (max_turns d <= fuel)%nat ->
  exists o w',
    test_ndit flux fuel self band mag (mkQ d s) target sg mi am w
    = Some (o, w')
    /\ (0 < target -> o = Passed)
    /\ (target <= 0 -> o = AssertionFailed).
Proof.
  intros Hs Hu Hmi Hb Hd Hf. unfold test_ndit.
  destruct (initialize_ok self sg mi am w Hu Hmi)
    as (w1 & -> & Hk1 & Hm1 & _ & _).
  assert (Hs1 : sound flux w1).
  { destruct Hs as [Hc Ht]. split; [now rewrite Hk1|now rewrite Hm1]. }
  destruct (Rlt_le_dec 0 target) as [Ht|Ht].
  - destruct (get_ndit_positive_target self band target mag d w1 Hs1 Hb Hd
                Ht) as (n & w' & Hrun & Hn & _).
    rewrite (Hrun fuel Hf).
    assert (E : (0 <? Z.of_nat n)%Z = true) by (apply Z.ltb_lt; lia).
    rewrite E. eexists _, _. split; [reflexivity|]. split; [reflexivity|lra].
  - unfold get_ndit. rewrite get_ndit_checks_spec.
    assert (E : Rleb d 0 = false) by (apply Rleb_false; lra).
    rewrite E, get_ndit_loop_false by (apply Rltb_false; lra).
    cbn [Z.ltb Z.compare]. eexists _, _. split; [reflexivity|].
    split; [lra|reflexivity].
Qed.

End More.

(** ** Instances of the further properties *)

Lemma not_A_supported : ~ In "A"%string (bands ETC).
Proof.
  simpl. intros H. repeat destruct H as [H|H]; try discriminate H.
  contradiction.
Qed.

Lemma max_turns_ten_seconds : max_turns 10 = 1080%nat.
Proof.
  unfold max_turns. rewrite (ceiling_unique (3 * 3600 / 10) 1080) by lra.
  reflexivity.
Qed.

(** Below the saturation limit no count of exposures brings the ratio to
    [rate * dit * 0.8 / (5 + 0.01 * dit)]. *)
Lemma search_snr_out_of_reach (limit rate d target : R) (k : nat) :
  0 < limit -> 0 <= rate -> 0 < d ->
  rate * d * (8 / 10) <= limit ->
  0 < target ->
  rate * d * (8 / 10) <= target * (5 + 1 / 100 * d) ->
  (1 <= k)%nat ->
  search_snr limit rate d k < target.
Proof.
  intros Hl Hr Hd Hunsat Ht Hfar Hk.
  unfold search_snr. rewrite search_limit_unsaturated by assumption.
  pose proof (signal_to_noise_ceilings limit rate d (Z.of_nat k) Hl Hr Hd
                ltac:(lia)) as [_ Hc].
  pose proof (clamped_signal_le_raw limit rate d) as Hraw.
  unfold signal_per_exposure in Hraw.
  assert (Hfive : 0 < 5 + 1 / 100 * d) by lra.
  destruct Hr as [Hr|Hr].
  - pose proof (signal_to_noise_below_ceiling limit rate d (Z.of_nat k) Hl Hr
                  Hd ltac:(lia)) as Hlt.
    apply (Rmult_lt_reg_r (5 + 1 / 100 * d)); [assumption|lra].
  - assert (Hzero : rate * d * (8 / 10) = 0) by (rewrite <- Hr; ring).
    assert (signal_to_noise limit rate d (Z.of_nat k) * (5 + 1 / 100 * d)
            <= 0) by lra.
    assert (signal_to_noise limit rate d (Z.of_nat k) <= 0) by nra.
    lra.
Qed.

Lemma max_turns_half_hours : max_turns 1800 = 6%nat.
Proof.
  unfold max_turns. rewrite (ceiling_unique (3 * 3600 / 1800) 6) by lra.
  reflexivity.
Qed.

(** A run of the search to the three hour cap: with 1 ph / (s m2) a target
    of 100 is out of reach, and exposures of half an hour are counted up
    to six. *)
Lemma get_ndit_half_hours :
  exists w',
    get_ndit faint_flux 6 0%nat "H2" 100 (MagFloat 20) (mkQ 1800 s)
             initial_world = Some (Ok 6%Z, w').
Proof.
  destruct (get_ndit_positive_target faint_flux 0%nat "H2"%string 100
              (MagFloat 20) 1800 initial_world (sound_initial_world _)
              H2_supported ltac:(lra) ltac:(lra))
    as (n & w' & Hrun & Hn & Hpost & Hfirst).
  pose proof (photon_rate_faint_flux_small "H2" (MagFloat 20)) as Hsmall.
  pose proof (photon_rate_faint_flux_pos "H2" (MagFloat 20)) as Hrate.
  assert (Hbelow : forall k, (1 <= k)%nat ->
            search_snr (limit_of initial_world)
                       (photon_rate faint_flux "H2" (MagFloat 20)) 1800 k
            < 100).
  { intros k Hk. rewrite limit_of_initial_world.
    apply search_snr_out_of_reach; try lra. assumption. }
  specialize (Hbelow n Hn).
  destruct Hpost as [Hpost|Hcap]; [lra|].
  assert (H6 : (6 <= n)%nat).
  { apply INR_le. change (INR 6) with (1 + 1 + 1 + 1 + 1 + 1). lra. }
  assert (Hn6 : n = 6%nat).
  { destruct (Nat.eq_dec n 6) as [|Hne]; [assumption|].
    destruct (Hfirst 6%nat ltac:(lia)) as [_ H].
    change (INR 6) with (1 + 1 + 1 + 1 + 1 + 1) in H. lra. }
  subst n. exists w'. apply Hrun. rewrite max_turns_half_hours. lia.
Qed.

Lemma sqrt_16000_upper : sqrt 16000 < 127.
Proof.
  rewrite <- (sqrt_square 127) by lra. apply sqrt_lt_1; lra.
Qed.

(** A run of the search over two turns: at 1000 ph/pixel/s one ten second
    exposure gives a ratio below 85 and two give a ratio above 100, so a
    target of 100 is met by the second count. *)
Lemma get_ndit_two_exposures :
  exists w',
    get_ndit flux_for_rate_1000 1080 0%nat "H2" 100 (MagFloat 20) (mkQ 10 s)
             initial_world = Some (Ok 2%Z, w').
Proof.
  destruct (get_ndit_positive_target flux_for_rate_1000 0%nat "H2"%string 100
              (MagFloat 20) 10 initial_world (sound_initial_world _)
              H2_supported ltac:(lra) ltac:(lra))
    as (n & w' & Hrun & Hn & Hpost & Hfirst).
  assert (Hunsat : signal_per_exposure
                     (photon_rate flux_for_rate_1000 "H2" (MagFloat 20)) 10
                   <= limit_of initial_world).
  { unfold signal_per_exposure.
    rewrite photon_rate_flux_for_rate_1000, limit_of_initial_world. lra. }
  assert (H1 : search_snr (limit_of initial_world)
                 (photon_rate flux_for_rate_1000 "H2" (MagFloat 20)) 10 1
               < 100).
  { unfold search_snr. rewrite search_limit_unsaturated by assumption.
    change (Z.of_nat 1) with 1%Z.
    destruct get_snr_formula_golden_value as [-> [_ Hhi]]. lra. }
  assert (H2 : search_snr (limit_of initial_world)
                 (photon_rate flux_for_rate_1000 "H2" (MagFloat 20)) 10 2
               >= 100).
  { unfold search_snr. rewrite search_limit_unsaturated by assumption.
    change (Z.of_nat 2) with 2%Z.
    rewrite limit_of_initial_world, photon_rate_flux_for_rate_1000.
    unfold signal_to_noise, accumulated_signal, total_noise, clamped_signal,
      signal_per_exposure.
    assert (E : Rgtb (1000 * 10 * (8 / 10)) 120000 = false)
      by (apply Rgtb_false; lra).
    rewrite E.
    replace (1000 * 10 * (8 / 10) * 2) with 16000 by lra.
    replace (5 * 2 + 1 / 100 * (10 * 2)) with (102 / 10) by lra.
    pose proof sqrt_16000_upper as Hhi.
    pose proof (sqrt_pos 16000) as Hpos.
    set (noise0 := 102 / 10 + sqrt 16000).
    assert (Hn0 : 0 < noise0) by (unfold noise0; lra).
    assert (Eq : 16000 / noise0 * noise0 = 16000) by (field; lra).
    apply Rle_ge. apply (Rmult_le_reg_r noise0); [assumption|].
    rewrite Eq. unfold noise0. lra. }
  assert (Hn2 : n = 2%nat).
  { destruct (Nat.eq_dec n 1) as [->|Hne1].
    - cbn [INR] in Hpost. destruct Hpost; lra.
    - destruct (Nat.eq_dec n 2) as [|Hne2]; [assumption|].
      destruct (Hfirst 2%nat ltac:(lia)) as [H _]. lra. }
  subst n. exists w'. apply Hrun. rewrite max_turns_ten_seconds. lia.
Qed.

(** A search on a saturating target.  On a fresh calculator, for the
    bright target in band Ks with ten second exposures and a target ratio
    of 600, the search returns 3: its third turn clamps at the limit the
    second turn doubled.  Asked from the state the search started in,
    [get_snr] gives three exposures a ratio below 600, and thirty seconds
    are far from three hours. *)
Example get_ndit_saturated_search :
  exists w' snr_3,
    get_ndit bright_flux 1080 0%nat "Ks" 600 (MagFloat (-10)) (mkQ 10 s)
             initial_world = Some (Ok 3%Z, w')
    /\ fst (get_snr bright_flux 0%nat "Ks" (MagFloat (-10)) (mkQ 10 s) 3
                    initial_world) = Ok snr_3
    /\ snr_3 < 600
    /\ 10 * 3 < 3 * 3600.
Proof.
  destruct (get_ndit_positive_target bright_flux 0%nat "Ks"%string 600
              (MagFloat (-10)) 10 initial_world (sound_initial_world _)
              Ks_supported ltac:(lra) ltac:(lra))
    as (n & w' & Hrun & Hn & Hpost & Hfirst).
  set (rate := photon_rate bright_flux "Ks" (MagFloat (-10))) in *.
  rewrite limit_of_initial_world in Hpost, Hfirst.
  assert (Hsat : forall limit, limit <= 1200000 ->
            Rgtb (signal_per_exposure rate 10) limit = true)
    by (intros limit Hl; now apply bright_flux_saturates).
  assert (Hsnr : forall limit k, limit <= 1200000 ->
            signal_to_noise limit rate 10 k
            = limit * IZR k
              / (5 * IZR k + 1 / 100 * (10 * IZR k) + sqrt (limit * IZR k))).
  { intros limit k Hl.
    unfold signal_to_noise, accumulated_signal, total_noise, clamped_signal.
    now rewrite Hsat. }
  assert (L1 : search_limit 120000 rate 10 1 = 120000).
  { cbn [search_limit]. unfold limit_after. rewrite Hsat by lra.
    change (IZR (Z.of_nat 1)) with 1. lra. }
  assert (L2 : search_limit 120000 rate 10 2 = 240000).
  { change (search_limit 120000 rate 10 2)
      with (limit_after (search_limit 120000 rate 10 1) rate 10 2).
    rewrite L1. unfold limit_after. rewrite Hsat by lra.
    change (IZR 2) with 2. lra. }
  assert (S1 : search_snr 120000 rate 10 1 < 600).
  { unfold search_snr. cbn [pred search_limit]. rewrite Hsnr by lra.
    change (IZR (Z.of_nat 1)) with 1.
    replace (120000 * 1) with 120000 by lra.
    pose proof sqrt_120000_lower as Hlo.
    set (noise0 := 5 * 1 + 1 / 100 * (10 * 1) + sqrt 120000).
    assert (H0 : 0 < noise0) by (unfold noise0; lra).
    assert (E : 120000 / noise0 * noise0 = 120000) by (field; lra).
    apply (Rmult_lt_reg_r noise0); [assumption|].
    rewrite E. unfold noise0. lra. }
  assert (S2 : search_snr 120000 rate 10 2 < 600).
  { unfold search_snr. cbn [pred]. rewrite L1, Hsnr by lra.
    change (IZR (Z.of_nat 2)) with 2.
    replace (120000 * 2) with 240000 by lra.
    assert (Hlo : 480 < sqrt 240000).
    { rewrite <- (sqrt_square 480) by lra. apply sqrt_lt_1; lra. }
    set (noise0 := 5 * 2 + 1 / 100 * (10 * 2) + sqrt 240000).
    assert (H0 : 0 < noise0) by (unfold noise0; lra).
    assert (E : 240000 / noise0 * noise0 = 240000) by (field; lra).
    apply (Rmult_lt_reg_r noise0); [assumption|].
    rewrite E. unfold noise0. lra. }
  assert (S3 : search_snr 120000 rate 10 3 >= 600).
  { unfold search_snr. cbn [pred]. rewrite L2, Hsnr by lra.
    change (IZR (Z.of_nat 3)) with 3.
    replace (240000 * 3) with 720000 by lra.
    assert (Hhi : sqrt 720000 < 850).
    { rewrite <- (sqrt_square 850) by lra. apply sqrt_lt_1; lra. }
    pose proof (sqrt_pos 720000) as Hpos.
    set (noise0 := 5 * 3 + 1 / 100 * (10 * 3) + sqrt 720000).
    assert (H0 : 0 < noise0) by (unfold noise0; lra).
    assert (E : 720000 / noise0 * noise0 = 720000) by (field; lra).
    apply Rle_ge. apply (Rmult_le_reg_r noise0); [assumption|].
    rewrite E. unfold noise0. lra. }
  assert (Hn3 : n = 3%nat).
  { destruct (Nat.eq_dec n 1) as [->|Hne1].
    { cbn [INR] in Hpost. destruct Hpost; lra. }
    destruct (Nat.eq_dec n 2) as [->|Hne2].
    { change (INR 2) with (1 + 1) in Hpost. destruct Hpost; lra. }
    destruct (Nat.eq_dec n 3) as [|Hne3]; [assumption|].
    destruct (Hfirst 3%nat ltac:(lia)) as [H _]. lra. }
  subst n. exists w'. eexists. split.
  { apply Hrun. rewrite max_turns_ten_seconds. lia. }
  split.
  { rewrite get_snr_spec by (apply sound_initial_world || apply Ks_supported).
    cbn [fst]. rewrite limit_of_initial_world. fold rate.
    rewrite Hsnr by lra. reflexivity. }
  split; [|lra].
  change (IZR 3) with 3.
  replace (120000 * 3) with (600 * 600) by lra.
  rewrite sqrt_square by lra.
  set (noise0 := 5 * 3 + 1 / 100 * (10 * 3) + 600).
  assert (H0 : 0 < noise0) by (unfold noise0; lra).
  assert (E : 600 * 600 / noise0 * noise0 = 600 * 600) by (field; lra).
  apply (Rmult_lt_reg_r noise0); [assumption|].
  rewrite E. unfold noise0. lra.
Qed.

(** Instance of X1: a length given as integration time, and the band "A". *)
Lemma get_snr_errors_are_atomic_fresh :
  get_snr faint_flux 0%nat "H2" (MagFloat 20) (mkQ 10 m) 60 initial_world
  = (Raise UnitsError, initial_world)
  /\ get_snr faint_flux 0%nat "A" (MagFloat 20) (mkQ 10 s) 60 initial_world
     = (Raise (ValueError
                 [Lit "Unexpected filter name, received "; FmtStr "A";
                  Lit " but expected one of "; FmtStrList (bands ETC)]),
        initial_world).
Proof.
  split.
  - destruct (get_snr_errors_are_atomic faint_flux 0%nat "H2"%string
                (MagFloat 20) (mkQ 10 m) 60 initial_world
                (sound_initial_world _)) as (Hatomic & _ & Hunit & _).
    specialize (Hunit ltac:(discriminate)).
    destruct (get_snr faint_flux 0%nat "H2" (MagFloat 20) (mkQ 10 m) 60
                      initial_world) as [r w'] eqn:E.
    cbn [fst] in Hunit. subst r. now rewrite (Hatomic _ _ eq_refl).
  - destruct (get_snr_errors_are_atomic faint_flux 0%nat "A"%string
                (MagFloat 20) (mkQ 10 s) 60 initial_world
                (sound_initial_world _)) as (Hatomic & _ & _ & Hband).
    specialize (Hband eq_refl not_A_supported).
    destruct (get_snr faint_flux 0%nat "A" (MagFloat 20) (mkQ 10 s) 60
                      initial_world) as [r w'] eqn:E.
    cbn [fst] in Hband. subst r. now rewrite (Hatomic _ _ eq_refl).
Defined.

(** Instance of X2: a faint target prints nothing, a bright one prints
    both warnings. *)
Lemma get_snr_prints_warnings_fresh :
  stdout (snd (get_snr faint_flux 0%nat "H2" (MagFloat 20) (mkQ 10 s) 60
                       initial_world)) = []
  /\ stdout (snd (get_snr bright_flux 0%nat "Ks" (MagFloat (-10)) (mkQ 10 s)
                          10 initial_world))
     = [WARN_LINEARITY; WARN_SATURATION].
Proof.
  split.
  - apply (get_snr_prints_warnings faint_flux 0%nat "H2"%string
             (MagFloat 20) 10 60 initial_world (sound_initial_world _)
             H2_supported).
    + pose proof (photon_rate_faint_flux_small "H2" (MagFloat 20)). lra.
    + pose proof (photon_rate_faint_flux_small "H2" (MagFloat 20)).
      rewrite limit_of_initial_world. lra.
  - apply (get_snr_prints_warnings bright_flux 0%nat "Ks"%string
             (MagFloat (-10)) 10 10 initial_world (sound_initial_world _)
             Ks_supported).
    + apply Rgtb_true.
      apply (bright_flux_saturates "Ks"%string (MagFloat (-10))). lra.
    + apply Rgtb_true. rewrite limit_of_initial_world.
      apply (bright_flux_saturates "Ks"%string (MagFloat (-10))). lra.
Defined.

(** Instance of X3: the faint target leaves the class as it is, the bright
    one multiplies the saturation limit by the ten exposures. *)
Lemma get_snr_effect_on_class_fresh :
  klass (snd (get_snr faint_flux 0%nat "H2" (MagFloat 20) (mkQ 10 s) 60
                      initial_world)) = ETC
  /\ klass (snd (get_snr bright_flux 0%nat "Ks" (MagFloat (-10)) (mkQ 10 s)
                         10 initial_world))
     = set_saturation_limit ETC (qscale (saturation_limit ETC) 10).
Proof.
  split.
  - apply (get_snr_effect_on_class faint_flux 0%nat "H2"%string
             (MagFloat 20) 10 60 initial_world (sound_initial_world _)
             H2_supported).
    pose proof (photon_rate_faint_flux_small "H2" (MagFloat 20)).
    rewrite limit_of_initial_world. lra.
  - apply (get_snr_effect_on_class bright_flux 0%nat "Ks"%string
             (MagFloat (-10)) 10 10 initial_world (sound_initial_world _)
             Ks_supported).
    apply Rgtb_true. rewrite limit_of_initial_world.
    apply (bright_flux_saturates "Ks"%string (MagFloat (-10))). lra.
Defined.

(** Instance of X4: magnitude 20 against magnitude 0 in band H2. *)
Lemma get_snr_monotone_in_rate_fresh :
  exists snr_faint snr_bright,
    fst (get_snr two_target_flux 0%nat "H2" (MagFloat 20) (mkQ 10 s) 10
                 initial_world) = Ok snr_faint
    /\ fst (get_snr two_target_flux 0%nat "H2" (MagFloat 0) (mkQ 10 s) 10
                    initial_world) = Ok snr_bright
    /\ snr_faint <= snr_bright.
Proof.
  assert (E20 : Rleb 20 0 = false) by (apply Rleb_false; lra).
  assert (E0 : Rleb 0 0 = true) by (apply Rleb_true; lra).
  destruct (get_snr_monotone_in_rate two_target_flux 0%nat "H2"%string
              (MagFloat 20) "H2"%string (MagFloat 0) 10 10 initial_world)
    as (a & b & Ha & Hb & Hle & _).
  - apply sound_initial_world.
  - rewrite limit_of_initial_world. lra.
  - apply H2_supported.
  - apply H2_supported.
  - unfold photon_rate, two_target_flux. rewrite E20.
    pose proof PI_RGT_0. nra.
  - unfold photon_rate, two_target_flux. rewrite E20, E0.
    pose proof PI_RGT_0. nra.
  - lra.
  - lia.
  - exists a, b. repeat (split; [assumption|]). assumption.
Defined.

(** Instance of X5: on a fresh calculator no ten second exposures give a
    ratio above 120000 / 5.1. *)
Lemma get_snr_ceilings_fresh :
  exists snr,
    fst (get_snr bright_flux 0%nat "Ks" (MagFloat (-10)) (mkQ 10 s) 1000
                 initial_world) = Ok snr
    /\ snr * (5 + 1 / 100 * 10) <= 120000.
Proof.
  destruct (get_snr_ceilings bright_flux 0%nat "Ks"%string (MagFloat (-10))
              10 1000 initial_world) as (x & Hx & _ & _ & Hceil).
  - apply sound_initial_world.
  - rewrite limit_of_initial_world. lra.
  - apply Ks_supported.
  - unfold photon_rate, bright_flux. pose proof PI_RGT_0. nra.
  - lra.
  - lia.
  - exists x. split; [assumption|].
    now rewrite limit_of_initial_world in Hceil.
Defined.

(** Instance of X6: minus ten metres as integration time. *)
Lemma get_ndit_rejects_non_time_dit_fresh :
  get_ndit faint_flux 5 0%nat "H2" 10 (MagFloat 20) (mkQ (-10) m)
           initial_world
  = Some (Raise UnitsError, initial_world).
Proof.
  apply (get_ndit_rejects_non_time_dit faint_flux 5 0%nat "H2"%string 10
           (MagFloat 20) (mkQ (-10) m) initial_world).
  discriminate.
Defined.

(** Instance of X7: the band "A" with a target of 7 and with a target
    of 0. *)
Lemma get_ndit_unsupported_band_fresh :
  get_ndit faint_flux 1 0%nat "A" 7 (MagFloat 20) (mkQ 10 s) initial_world
  = Some (Raise (ValueError
                   [Lit "Unexpected filter name, received "; FmtStr "A";
                    Lit " but expected one of "; FmtStrList (bands ETC)]),
          initial_world)
  /\ get_ndit faint_flux 1 0%nat "A" 0 (MagFloat 20) (mkQ 10 s)
              initial_world
     = Some (Ok 0%Z, initial_world).
Proof.
  destruct (get_ndit_unsupported_band faint_flux 0%nat "A"%string 7
              (MagFloat 20) 10 initial_world (sound_initial_world _)
              not_A_supported ltac:(lra)) as [Hpos _].
  destruct (get_ndit_unsupported_band faint_flux 0%nat "A"%string 0
              (MagFloat 20) 10 initial_world (sound_initial_world _)
              not_A_supported ltac:(lra)) as [_ Hneg].
  split; [apply Hpos|apply Hneg]; lra.
Defined.

(** Instance of X8: with 1 ph / (s m2) a target of 10 is out of reach, and
    the search with ten second exposures returns 1080. *)
Lemma get_ndit_unreachable_target_faint :
  exists w',
    forall fuel, (1080 <= fuel)%nat ->
      get_ndit faint_flux fuel 0%nat "H2" 10 (MagFloat 20) (mkQ 10 s)
               initial_world = Some (Ok 1080%Z, w').
Proof.
  destruct (get_ndit_unreachable_target faint_flux 0%nat "H2"%string 10
              (MagFloat 20) 10 initial_world) as (w' & Hrun).
  - apply sound_initial_world.
  - rewrite limit_of_initial_world. lra.
  - apply H2_supported.
  - left. apply photon_rate_faint_flux_pos.
  - lra.
  - pose proof (photon_rate_faint_flux_small "H2" (MagFloat 20)).
    rewrite limit_of_initial_world. lra.
  - lra.
  - pose proof (photon_rate_faint_flux_small "H2" (MagFloat 20)). lra.
  - exists w'. intros fuel Hf. rewrite max_turns_ten_seconds in Hrun.
    now apply Hrun.
Defined.

(** Instance of X9: six exposures of half an hour reach three hours, with
    the one hour warning printed once and the three hour warning printed
    once, as the last line; the run of [get_ndit_one_exposure] prints no
    time warning. *)
Lemma get_ndit_time_warnings_half_hours :
  (exists w' out,
     get_ndit faint_flux 6 0%nat "H2" 100 (MagFloat 20) (mkQ 1800 s)
              initial_world = Some (Ok 6%Z, w')
     /\ stdout w' = stdout initial_world ++ out
     /\ count_occ string_dec out WARN_1_HOUR = 1%nat
     /\ count_occ string_dec out WARN_3_HOURS = 1%nat
     /\ exists out', out = out' ++ [WARN_3_HOURS])
  /\ (exists w' out,
        get_ndit flux_for_rate_1000 1 0%nat "H2" 10 (MagFloat 20) (mkQ 10 s)
                 initial_world = Some (Ok 1%Z, w')
        /\ stdout w' = stdout initial_world ++ out
        /\ count_occ string_dec out WARN_1_HOUR = 0%nat
        /\ count_occ string_dec out WARN_3_HOURS = 0%nat).
Proof.
  split.
  - destruct get_ndit_half_hours as (w' & Hrun).
    destruct (get_ndit_time_warnings faint_flux 6 0%nat "H2"%string 100
                (MagFloat 20) 1800 initial_world 6 w' (sound_initial_world _)
                H2_supported ltac:(lra) Hrun)
      as (out & Hout & H1 & _ & H3 & _).
    exists w', out. split; [assumption|]. split; [assumption|].
    split; [apply H1; lra|]. apply H3. lra.
  - destruct get_ndit_one_exposure as (w' & Hrun & _).
    destruct (get_ndit_time_warnings flux_for_rate_1000 1 0%nat "H2"%string
                10 (MagFloat 20) 10 initial_world 1 w'
                (sound_initial_world _) H2_supported ltac:(lra) Hrun)
      as (out & Hout & _ & H1 & _ & H3).
    exists w', out. split; [assumption|]. split; [assumption|].
    split; [apply H1|apply H3]; lra.
Defined.

(** Instance of X10: two searches at 1000 ph/pixel/s with ten second
    exposures, a target of 10 met by the first count against a target of
    100 met by the second. *)
Lemma get_ndit_monotone_in_target_two_searches :
  exists w1 w2,
    get_ndit flux_for_rate_1000 1 0%nat "H2" 10 (MagFloat 20) (mkQ 10 s)
             initial_world = Some (Ok 1%Z, w1)
    /\ get_ndit flux_for_rate_1000 1080 0%nat "H2" 100 (MagFloat 20)
                (mkQ 10 s) initial_world = Some (Ok 2%Z, w2)
    /\ (1 <= 2)%Z.
Proof.
  destruct get_ndit_one_exposure as (w1 & Hrun1 & _).
  destruct get_ndit_two_exposures as (w2 & Hrun2).
  exists w1, w2. split; [assumption|]. split; [assumption|].
  apply (get_ndit_monotone_in_target flux_for_rate_1000 1 1080 0%nat
           "H2"%string 10 100 (MagFloat 20) 10 initial_world 1 2 w1 w2
           (sound_initial_world _) H2_supported);
    try assumption; lra.
Defined.

(** Instance of X11: the run of [get_ndit_one_exposure]. *)
Lemma get_ndit_frame_one_exposure :
  exists w',
    get_ndit flux_for_rate_1000 1 0%nat "H2" 10 (MagFloat 20) (mkQ 10 s)
             initial_world = Some (Ok 1%Z, w')
    /\ sound flux_for_rate_1000 w'
    /\ objects w' = objects initial_world
    /\ klass w'
       = set_saturation_limit (klass initial_world)
                              (saturation_limit (klass w')).
Proof.
  destruct get_ndit_one_exposure as (w' & Hrun & _).
  destruct (get_ndit_frame flux_for_rate_1000 1 0%nat "H2"%string 10
              (MagFloat 20) (mkQ 10 s) initial_world (Ok 1%Z) w'
              (sound_initial_world _) Hrun) as (Hs & Ho & Hk & _).
  exists w'. repeat (split; [assumption|]). assumption.
Defined.

(** Instance of X12: a seeing of one second, with a moon illumination that
    is out of range as well. *)
Lemma initialize_rejects_non_angle_seeing_fresh :
  initialize_observing_conditions 0%nat (mkQ 1 s) 2 1 initial_world
  = (Raise UnitsError, initial_world).
Proof.
  apply (initialize_rejects_non_angle_seeing 0%nat (mkQ 1 s) 2 1
           initial_world).
  discriminate.
Defined.

(** Instance of X13: full moon after half moon, and a refused third
    value. *)
Lemma initialize_last_write_wins_fresh :
  let w1 :=
    snd (initialize_observing_conditions 0%nat (of_number 1 arcsec) (1 / 2)
                                         (3 / 2) initial_world) in
  getattr_moon_illumination
    (snd (initialize_observing_conditions 0%nat (of_number 2 arcsec) 1 1 w1))
    0%nat = 1
  /\ getattr_moon_illumination
       (snd (initialize_observing_conditions 0%nat (of_number 2 arcsec) 2 1
                                             w1))
       0%nat = 1 / 2.
Proof.
  intros w1.
  destruct (initialize_last_write_wins 0%nat (of_number 1 arcsec)
              (of_number 2 arcsec) (1 / 2) (3 / 2) 1 1 initial_world
              eq_refl eq_refl ltac:(lra)) as [Hok _].
  destruct (initialize_last_write_wins 0%nat (of_number 1 arcsec)
              (of_number 2 arcsec) (1 / 2) (3 / 2) 2 1 initial_world
              eq_refl eq_refl ltac:(lra)) as [_ Hbad].
  split.
  - apply Hok. lra.
  - apply Hbad. lra.
Defined.

(** Instance of X14: instances 0 and 1 are initialised, instance 2 is
    not. *)
Lemma initialize_instances_independent_fresh :
  let w2 :=
    snd (initialize_observing_conditions 1%nat (of_number 2 arcsec) 1 2
           (snd (initialize_observing_conditions 0%nat (of_number 1 arcsec)
                   (1 / 2) (3 / 2) initial_world))) in
  getattr_airmass w2 0%nat = 3 / 2
  /\ getattr_airmass w2 1%nat = 2
  /\ getattr_airmass w2 2%nat = 1.
Proof.
  intros w2.
  destruct (initialize_instances_independent 0%nat 1%nat 2%nat
              (of_number 1 arcsec) (of_number 2 arcsec) (1 / 2) (3 / 2) 1 2
              initial_world eq_refl eq_refl ltac:(lra) ltac:(lra)
              ltac:(discriminate))
    as ((_ & _ & H0) & (_ & _ & H1) & H2).
  split; [exact H0|]. split; [exact H1|].
  apply H2; [discriminate|discriminate|reflexivity].
Defined.

(** Instance of X15: band Ks on a fresh calculator. *)
Lemma photons_in_filter_repeat_fresh :
  exists v w1,
    photons_in_filter faint_flux 0%nat "Ks" (MagFloat 20) initial_world
    = (Ok v, w1)
    /\ memo_find (0%nat, "Ks"%string, MagFloat 20) (memo w1) = Some v
    /\ photons_in_filter faint_flux 0%nat "Ks" (MagFloat 20) w1 = (Ok v, w1).
Proof.
  eexists _, _.
  assert (Hrun := photons_in_filter_valid faint_flux 0%nat "Ks"%string
                    (MagFloat 20) initial_world (sound_initial_world _)
                    Ks_supported).
  split; [exact Hrun|].
  exact (photons_in_filter_repeat faint_flux 0%nat "Ks"%string (MagFloat 20)
           initial_world _ _ Hrun).
Defined.

(** Instance of X16: the empty table of a fresh calculator. *)
Lemma photons_in_filter_memo_bounded_fresh :
  (List.length
     (memo (snd (photons_in_filter faint_flux 0%nat "Ks" (MagFloat 20)
                                   initial_world))) <= maxsize)%nat.
Proof.
  apply (photons_in_filter_memo_bounded faint_flux 0%nat "Ks"%string
           (MagFloat 20) initial_world).
  cbn [memo initial_world List.length]. unfold maxsize. lia.
Defined.

(** Instance of X17: bands Ks and "A" with a flux of 1 ph / (s m2). *)
Lemma test_photons_outcome_fresh :
  fst (test_photons faint_flux 0%nat "Ks" (MagFloat 20) initial_world)
  = Passed
  /\ fst (test_photons faint_flux 0%nat "A" (MagFloat 20) initial_world)
     = Errored (ValueError
                  [Lit "Unexpected filter name, received "; FmtStr "A";
                   Lit " but expected one of "; FmtStrList (bands ETC)]).
Proof.
  destruct (test_photons_outcome faint_flux 0%nat "Ks"%string (MagFloat 20)
              initial_world (sound_initial_world _)) as (Hpass & _ & _).
  destruct (test_photons_outcome faint_flux 0%nat "A"%string (MagFloat 20)
              initial_world (sound_initial_world _)) as (_ & _ & Herr).
  split.
  - apply Hpass; [apply Ks_supported|]. unfold faint_flux. lra.
  - apply Herr. apply not_A_supported.
Defined.

(** Instance of X18: the fixture ("A", ValueError), and the band Ks in its
    place. *)
Lemma test_photons_band_error_outcome_fresh :
  fst (test_photons_band_error faint_flux 0%nat ("A"%string, ValueError_class)
                               (MagFloat 20) initial_world) = Passed
  /\ fst (test_photons_band_error faint_flux 0%nat
                                  ("Ks"%string, ValueError_class)
                                  (MagFloat 20) initial_world)
     = AssertionFailed.
Proof.
  split.
  - apply (test_photons_band_error_outcome faint_flux 0%nat "A"%string
             (MagFloat 20) initial_world (sound_initial_world _)).
    apply not_A_supported.
  - apply (test_photons_band_error_outcome faint_flux 0%nat "Ks"%string
             (MagFloat 20) initial_world (sound_initial_world _)).
    apply Ks_supported.
Defined.

(** Instance of X19: the fixtures of conftest.py (seeing 1 arcsec, moon
    0.5, airmass 0.5, dit 10 s, ndit 10) in band H2. *)
Lemma test_snr_outcome_fresh :
  fst (test_snr faint_flux 0%nat "H2" (MagFloat 20) (mkQ 10 s) 10
                (of_number 1 arcsec) (1 / 2) (1 / 2) initial_world)
  = Passed.
Proof.
  apply (test_snr_outcome faint_flux 0%nat "H2"%string (MagFloat 20) 10 10
           (of_number 1 arcsec) (1 / 2) (1 / 2) initial_world).
  - apply sound_initial_world.
  - rewrite limit_of_initial_world. lra.
  - reflexivity.
  - lra.
  - apply H2_supported.
  - lra.
  - lia.
  - apply photon_rate_faint_flux_pos.
Defined.

(** Instance of X20: the fixtures of conftest.py with the target 7, and
    with a target of 0 in its place. *)
Lemma test_ndit_outcome_fresh :
  (exists w',
     test_ndit faint_flux 1080 0%nat "H2" (MagFloat 20) (mkQ 10 s) 7
               (of_number 1 arcsec) (1 / 2) (1 / 2) initial_world
     = Some (Passed, w'))
  /\ (exists w',
        test_ndit faint_flux 1080 0%nat "H2" (MagFloat 20) (mkQ 10 s) 0
                  (of_number 1 arcsec) (1 / 2) (1 / 2) initial_world
        = Some (AssertionFailed, w')).
Proof.
  split.
  - destruct (test_ndit_outcome faint_flux 1080 0%nat "H2"%string
                (MagFloat 20) 10 7 (of_number 1 arcsec) (1 / 2) (1 / 2)
                initial_world (sound_initial_world _) eq_refl ltac:(lra)
                H2_supported ltac:(lra))
      as (o & w' & Hrun & Hpass & _).
    + rewrite max_turns_ten_seconds. lia.
    + exists w'. rewrite Hrun, Hpass by lra. reflexivity.
  - destruct (test_ndit_outcome faint_flux 1080 0%nat "H2"%string
                (MagFloat 20) 10 0 (of_number 1 arcsec) (1 / 2) (1 / 2)
                initial_world (sound_initial_world _) eq_refl ltac:(lra)
                H2_supported ltac:(lra))
      as (o & w' & Hrun & _ & Hfail).
    + rewrite max_turns_ten_seconds. lia.
    + exists w'. rewrite Hrun, Hfail by lra. reflexivity.
Defined.
